(** * Aura explorer: ledger synchronisation core

  A shallow embedding of the two clients of the repository:

  - [Aura]: the search resolver of the ping-pub explorer
    ([ping-pub-explorer/src/api/aura.ts] with its caller [onSearch] in
    [ping-pub-explorer/src/App.tsx]);
  - [Explorer]: the [AuraExplorer] class of [frontend/explorer.js]
    (cache, fetch gateway, pagination and filters, poll scheduler,
    push channel).

  JavaScript strings are sequences of code units; the model covers code
  units below 256, one [ascii] each.  Integers that the code keeps in
  JavaScript numbers (pages, limits, timestamps) are modelled in [Z],
  which is exact in the range of integers a double represents exactly
  (below 2^53); the conversion [Number] of user input is modelled with
  its rounding. *)

From Stdlib Require Import ZArith NArith Lia List String Ascii Bool.
From stdpp Require Import base gmap strings list pretty.

Set Warnings "-register-all".

Local Open Scope string_scope.
Local Open Scope Z_scope.

(** ** JavaScript values and string primitives *)

Module Js.

(** Parsed JSON values (the result of [response.json()]). *)
Inductive json : Type :=
| JNull
| JBool (b : bool)
| JNum (n : Z)
| JStr (s : string)
| JArr (items : list json)
| JObj (fields : list (string * json)).

(** Exceptions: [fetch] rejects with a [TypeError], the gateways throw
    [new Error(message)], and [response.json()] rejects with a
    [SyntaxError]. *)
Inductive exn : Type :=
| TypeError (message : string)
| Error (message : string)
| SyntaxError (message : string).

Definition message_of (e : exn) : string :=
  match e with
  | TypeError m | Error m | SyntaxError m => m
  end.

(** The completion of a call: a normal return or a throw. *)
Inductive completion (A : Type) : Type :=
| Return (v : A)
| Throw (e : exn).
Arguments Return {A} v.
Arguments Throw {A} e.

(** Sequencing of completions: a throw ends the evaluation. *)
Definition bind {A B : Type} (c : completion A) (k : A -> completion B) : completion B :=
  match c with
  | Return v => k v
  | Throw e => Throw e
  end.

(** [try { c } catch (error) { handler }] *)
Definition catch {A : Type} (c : completion A) (handler : exn -> completion A)
  : completion A :=
  match c with
  | Return v => Return v
  | Throw e => handler e
  end.

Declare Scope completion_scope.
Delimit Scope completion_scope with completion.
Notation "x <- c ;; k" := (bind c (fun x => k))
  (at level 100, c at next level, right associativity) : completion_scope.

(** The value of an own property of a parsed object; of two members with
    the same name the later one counts. *)
Fixpoint field (name : string) (fields : list (string * json)) : option json :=
  match fields with
  | [] => None
  | (k, v) :: rest =>
      match field name rest with
      | Some w => Some w
      | None => if String.eqb k name then Some v else None
      end
  end.

(** [v.name] for the names the clients read from an answer ([type],
    [result], [height], [hash], [address], [block_id]), none of which is a
    property of a string, a number, a boolean or an array; [None] is
    [undefined]. Reading a property of [undefined] or [null] throws a
    [TypeError] (the text of its message is the engine's). *)
Definition get (v : option json) (name : string) : completion (option json) :=
  match v with
  | None => Throw (TypeError ("Cannot read properties of undefined (reading '" +:+ name +:+ "')"))
  | Some JNull => Throw (TypeError ("Cannot read properties of null (reading '" +:+ name +:+ "')"))
  | Some (JObj fields) => Return (field name fields)
  | Some _ => Return None
  end.

(** A member chain [v.a.b], read from left to right. *)
Fixpoint get_path (v : option json) (names : list string) : completion (option json) :=
  match names with
  | [] => Return v
  | name :: rest =>
      match get v name with
      | Return w => get_path w rest
      | Throw e => Throw e
      end
  end.

(** What [await fetch(url)] observes: the promise rejects (network
    failure), or a response arrives with its status line, its body as text
    and, when the body parses, as JSON of type [T]. *)
Inductive fetched (T : Type) : Type :=
| Rejected (reason : string)
| Response (status : Z) (statusText : string) (text : string) (body : option T).
Arguments Rejected {T} reason.
Arguments Response {T} status statusText text body.

(** [response.ok]: the status is in the range 200-299. *)
Definition ok (status : Z) : bool := (200 <=? status) && (status <=? 299).

(** The underlying call failed: network rejection or non-success status. *)
Definition transport_failed {T} (r : fetched T) : bool :=
  match r with
  | Rejected _ => true
  | Response status _ _ _ => negb (ok status)
  end.

Definition code (c : ascii) : N := N_of_ascii c.

(** [\d] *)
Definition is_digit (c : ascii) : bool :=
  ((48 <=? code c) && (code c <=? 57))%N.

(** [[0-9a-f]] under the [i] flag. *)
Definition is_hex (c : ascii) : bool :=
  (((48 <=? code c) && (code c <=? 57))
   || ((97 <=? code c) && (code c <=? 102))
   || ((65 <=? code c) && (code c <=? 70)))%N.

(** White space and line terminators removed by [String.prototype.trim]
    (tab, LF, VT, FF, CR, space, no-break space). *)
Definition is_white (c : ascii) : bool :=
  (((9 <=? code c) && (code c <=? 13)) || (code c =? 32) || (code c =? 160))%N.

Fixpoint all_chars (p : ascii -> bool) (s : string) : bool :=
  match s with
  | EmptyString => true
  | String c s' => p c && all_chars p s'
  end.

(** [/^\d+$/.test(s)] *)
Definition test_digits (s : string) : bool :=
  match s with
  | EmptyString => false
  | String _ _ => all_chars is_digit s
  end.

(** [/^[0-9a-f]{64}$/i.test(s)] *)
Definition test_hex64 (s : string) : bool :=
  Nat.eqb (String.length s) 64 && all_chars is_hex s.

Definition upper_char (c : ascii) : ascii :=
  if ((97 <=? code c) && (code c <=? 122))%N
  then ascii_of_N (code c - 32) else c.

Definition lower_char (c : ascii) : ascii :=
  if (((65 <=? code c) && (code c <=? 90))
      || ((192 <=? code c) && (code c <=? 222) && negb (code c =? 215)))%N
  then ascii_of_N (code c + 32) else c.

Fixpoint map_chars (f : ascii -> ascii) (s : string) : string :=
  match s with
  | EmptyString => EmptyString
  | String c s' => String (f c) (map_chars f s')
  end.

(** [toUpperCase] on the letters of the basic Latin block; the code
    applies it only to strings that passed [test_hex64]. *)
Definition toUpperCase (s : string) : string := map_chars upper_char s.

Definition toLowerCase (s : string) : string := map_chars lower_char s.

(** [s.startsWith(p)] *)
Fixpoint startsWith (s p : string) : bool :=
  match p, s with
  | EmptyString, _ => true
  | String _ _, EmptyString => false
  | String a p', String b s' => Ascii.eqb a b && startsWith s' p'
  end.

(** [s.slice(n)] for [0 <= n]. *)
Fixpoint slice (n : nat) (s : string) : string :=
  match n, s with
  | O, _ => s
  | S _, EmptyString => EmptyString
  | S n', String _ s' => slice n' s'
  end.

Fixpoint trimStart (s : string) : string :=
  match s with
  | EmptyString => EmptyString
  | String c s' => if is_white c then trimStart s' else s
  end.

Fixpoint trimEnd (s : string) : string :=
  match s with
  | EmptyString => EmptyString
  | String c s' =>
      match trimEnd s' with
      | EmptyString => if is_white c then EmptyString else String c EmptyString
      | r => String c r
      end
  end.

(** [s.trim()] *)
Definition trim (s : string) : string := trimEnd (trimStart s).

(** JavaScript numbers as far as the resolver produces them: a finite
    non-negative integer, [Infinity], or the conversion of a string that is
    not a plain digit sequence or of a value that is not a string, which are
    kept symbolic. *)
Inductive number : Type :=
| Finite (n : N)
| Infinity
| NumberOf (s : string)
| NumberOfValue (v : option json).

(** The value of a digit sequence read in base ten. *)
Fixpoint decimal_from (acc : N) (s : string) : N :=
  match s with
  | EmptyString => acc
  | String c s' => decimal_from (10 * acc + (code c - 48))%N s'
  end.

Definition decimal (s : string) : N := decimal_from 0%N s.

(** Rounding of a non-negative integer to the nearest double, ties to
    even: integers below 2^53 are exact; above, the 53 leading bits are
    kept and the rest is rounded; from 2^1024 on the result is
    [Infinity]. *)
Definition to_double (n : N) : number :=
  (if n <? 2 ^ 53 then Finite n
   else
     let e := N.log2 n - 52 in
     let q := N.shiftr n e in
     let r := n - N.shiftl q e in
     let half := 2 ^ (e - 1) in
     let q' := if (half <? r) || ((r =? half) && N.odd q) then q + 1 else q in
     let v := N.shiftl q' e in
     if 2 ^ 1024 <=? v then Infinity else Finite v)%N.

(** [Number(s)] *)
Definition Number (s : string) : number :=
  if test_digits s then to_double (decimal s) else NumberOf s.

(** [Number(v)] for a value read from an answer. *)
Definition Number_of_value (v : option json) : number :=
  match v with
  | Some (JStr s) => Number s
  | _ => NumberOfValue v
  end.

End Js.

(** ** The search resolver of the ping-pub explorer *)

Module Aura.
Import Js.

(** The node behind [RPC_BASE]: what each of the two lookups observes. The
    interfaces [RpcBlockResponse] and [RpcTxResponse] are annotations only: the
    body of an answer is whatever JSON the node sent. *)
Record Rpc : Type := {
  rpc_block : number -> fetched json;   (* /rpc/block?height=${targetHeight} *)
  rpc_tx : string -> fetched json       (* /rpc/tx?hash=${normalized} *)
}.

(** The requests a call issues, in order. *)
Inductive request : Type :=
| GetBlock (height : number)
| GetTx (hash : string).

Inductive result_type : Type := block | transaction.

(** [TxSearchResult] of [types.ts]; [hash] and [payload] hold what was read
    from the answer, [None] for [undefined]. *)
Record TxSearchResult : Type := {
  type : result_type;
  height : number;
  hash : option json;
  result_payload : option json
}.

Definition fetchJson {T} (r : fetched T) : completion T :=
  match r with
  | Rejected reason => Throw (TypeError reason)
  | Response status statusText text body =>
      if negb (ok status)
      then Throw (Error (pretty status +:+ " " +:+ statusText +:+ " - " +:+ text))
      else match body with
           | Some v => Return v
           | None => Throw (SyntaxError "Unexpected token")
           end
  end.

(** The query without its optional [0x] prefix (first line of
    [normalizeHash]). *)
Definition strip_0x (value : string) : string :=
  if startsWith (toLowerCase value) "0x" then slice 2 value else value.

Definition normalizeHash (value : string) : option string :=
  let hex := strip_0x value in
  if negb (test_hex64 hex) then None
  else Some ("0x" +:+ toUpperCase hex).

Definition searchLedger (rpc : Rpc) (query : string)
  : list request * completion (option TxSearchResult) :=
  if test_digits query then
    let targetHeight := Number query in
    ([GetBlock targetHeight],
     (blk <- fetchJson (rpc_block rpc targetHeight);;
      h <- get_path (Some blk) ["result"; "block_id"; "hash"];;
      p <- get (Some blk) "result";;
      Return (Some {| type := block;
                      height := targetHeight;
                      hash := h;
                      result_payload := p |}))%completion)
  else
    match normalizeHash query with
    | None => ([], Return None)
    | Some normalized =>
        ([GetTx normalized],
         catch
           (tx <- fetchJson (rpc_tx rpc normalized);;
            ht <- get_path (Some tx) ["result"; "height"];;
            h <- get_path (Some tx) ["result"; "hash"];;
            p <- get (Some tx) "result";;
            Return (Some {| type := transaction;
                            height := Number_of_value ht;
                            hash := h;
                            result_payload := p |}))%completion
           (* console.warn(...); return null *)
           (fun _ => Return None))
    end.

(** The two pieces of state [onSearch] sets in [App]. *)
Record SearchView : Type := {
  searchResult : option TxSearchResult;
  searchError : option string
}.

Definition onSearch (rpc : Rpc) (value : string) : list request * SearchView :=
  if String.eqb (trim value) "" then
    ([], {| searchResult := None; searchError := None |})
  else
    match searchLedger rpc (trim value) with
    | (reqs, Return None) =>
        (reqs, {| searchResult := None;
                  searchError := Some "No block or transaction found." |})
    | (reqs, Return (Some result)) =>
        (reqs, {| searchResult := Some result; searchError := None |})
    | (reqs, Throw error) =>
        (reqs, {| searchResult := None; searchError := Some (message_of error) |})
    end.

End Aura.


(** ** The [AuraExplorer] class of the frontend *)

Module Explorer.
Import Js.

Record PageState : Type := { page : Z; limit : Z }.

(** [this.pagination] *)
Record Pagination : Type := {
  blocks : PageState;
  txs : PageState;
  proposals : PageState
}.

(** [this.filters]; [None] is [null]. *)
Record Filters : Type := {
  txType : option string;
  txStatus : option string;
  proposalStatus : option string
}.

(** A value of [this.cache]. *)
Record CacheEntry : Type := { data : json; timestamp : Z }.

(** Handles returned by [setInterval]: positive integers, hence truthy. *)
Definition handle : Type := positive.

(** The fields of an [AuraExplorer] instance. [ws] holds the URL the current
    socket was opened with, [None] for [null]. *)
Record AuraExplorer : Type := {
  apiUrl : string;
  wsUrl : string;
  ws : option string;
  cache : gmap string CacheEntry;
  cacheTimeout : Z;
  pagination : Pagination;
  filters : Filters;
  autoRefresh : bool;
  refreshInterval : option handle
}.

Record Config : Type := { config_apiUrl : option string; config_wsUrl : option string }.

(** [v || d] for a string-valued option. *)
Definition or_default (v : option string) (d : string) : string :=
  match v with
  | Some s => if String.eqb s "" then d else s
  | None => d
  end.

(** [value || null] *)
Definition or_null (value : string) : option string :=
  if String.eqb value "" then None else Some value.

(** Truthiness of a filter value. *)
Definition truthy (v : option string) : bool :=
  match v with
  | Some s => negb (String.eqb s "")
  | None => false
  end.

Definition constructor (config : Config) : AuraExplorer := {|
  apiUrl := or_default (config_apiUrl config) "http://localhost:8000";
  wsUrl := or_default (config_wsUrl config) "ws://localhost:8000/ws";
  ws := None;
  cache := ∅;
  cacheTimeout := 5000;
  pagination := {| blocks := {| page := 1; limit := 20 |};
                   txs := {| page := 1; limit := 20 |};
                   proposals := {| page := 1; limit := 20 |} |};
  filters := {| txType := None; txStatus := None; proposalStatus := None |};
  autoRefresh := true;
  refreshInterval := None
|}.

(** The loaders of the class. *)
Inductive loader : Type :=
| LoadBlocks | LoadTransactions | LoadValidators | LoadProposals
| LoadStakingPool | UpdateQuickStats.

(** States of the push channel as shown by [updateWSStatus]. *)
Inductive ChannelState : Type := Connecting | Connected | Disconnected | Errored.

(** Client-to-server message [{ type: 'subscribe', data: { channel } }]. *)
Inductive ws_request : Type := Subscribe (channel : string).

(** Server-to-client message [{ type, data }]. *)
Record ws_message : Type := { msg_type : string; msg_data : json }.

(** What a handler does besides changing the instance, in order. *)
Inductive event : Type :=
| Invoke (l : loader)                        (* the loader is entered *)
| HttpGet (url : string)                     (* fetch(url) *)
| Rendered (l : loader) (d : json)           (* the gateway returned d to the loader *)
| RenderedError (l : loader)                 (* the gateway threw: the catch branch *)
| NewWebSocket (url : string)                (* new WebSocket(url) *)
| WsSend (m : ws_request)                    (* this.ws.send(...) *)
| SetTimeoutInitWebSocket (delay : Z)        (* setTimeout(() => this.initWebSocket(), delay) *)
| SetInterval (h : handle) (delay : Z)       (* setInterval(tick, delay) returned h *)
| ClearInterval (h : handle).                (* clearInterval(h) *)

(** The browser around the instance: the instance itself, the interval timers
    that are active, the next handle [setInterval] will return, the state the
    status indicator shows, and the trace of events so far. *)
Record Sys : Type := {
  self : AuraExplorer;
  intervals : gset handle;
  next_handle : handle;
  channel : ChannelState;
  log : list event
}.

(** One request and its answer: what [fetch] observes and the time that
    passes until the answer is in. *)
Record exchange : Type := { reply : fetched json; latency : Z }.

(** The surroundings of one handler run: [Date.now()] when it starts, the
    server, the value of the validator sort control and whether
    [new WebSocket] succeeds. Every awaited fetch is resolved within the run;
    interleavings of other handlers between a request and its answer are not
    modelled. *)
Record Env : Type := {
  now : Z;
  net : string -> exchange;
  validatorSort : string;
  ws_constructs : bool
}.

Definition with_self (f : AuraExplorer -> AuraExplorer) (s : Sys) : Sys :=
  {| self := f (self s); intervals := intervals s; next_handle := next_handle s;
     channel := channel s; log := log s |}.

Definition emit (e : event) (s : Sys) : Sys :=
  {| self := self s; intervals := intervals s; next_handle := next_handle s;
     channel := channel s; log := log s ++ [e] |}.

Definition set_cache (c : gmap string CacheEntry) (a : AuraExplorer) : AuraExplorer :=
  {| apiUrl := apiUrl a; wsUrl := wsUrl a; ws := ws a; cache := c;
     cacheTimeout := cacheTimeout a; pagination := pagination a;
     filters := filters a; autoRefresh := autoRefresh a;
     refreshInterval := refreshInterval a |}.

Definition set_pagination (p : Pagination) (a : AuraExplorer) : AuraExplorer :=
  {| apiUrl := apiUrl a; wsUrl := wsUrl a; ws := ws a; cache := cache a;
     cacheTimeout := cacheTimeout a; pagination := p;
     filters := filters a; autoRefresh := autoRefresh a;
     refreshInterval := refreshInterval a |}.

Definition set_filters (f : Filters) (a : AuraExplorer) : AuraExplorer :=
  {| apiUrl := apiUrl a; wsUrl := wsUrl a; ws := ws a; cache := cache a;
     cacheTimeout := cacheTimeout a; pagination := pagination a;
     filters := f; autoRefresh := autoRefresh a;
     refreshInterval := refreshInterval a |}.

Definition set_autoRefresh (b : bool) (a : AuraExplorer) : AuraExplorer :=
  {| apiUrl := apiUrl a; wsUrl := wsUrl a; ws := ws a; cache := cache a;
     cacheTimeout := cacheTimeout a; pagination := pagination a;
     filters := filters a; autoRefresh := b;
     refreshInterval := refreshInterval a |}.

Definition set_refreshInterval (h : option handle) (a : AuraExplorer) : AuraExplorer :=
  {| apiUrl := apiUrl a; wsUrl := wsUrl a; ws := ws a; cache := cache a;
     cacheTimeout := cacheTimeout a; pagination := pagination a;
     filters := filters a; autoRefresh := autoRefresh a;
     refreshInterval := h |}.

Definition set_ws (w : option string) (a : AuraExplorer) : AuraExplorer :=
  {| apiUrl := apiUrl a; wsUrl := wsUrl a; ws := w; cache := cache a;
     cacheTimeout := cacheTimeout a; pagination := pagination a;
     filters := filters a; autoRefresh := autoRefresh a;
     refreshInterval := refreshInterval a |}.

Definition set_page (n : Z) (p : PageState) : PageState :=
  {| page := n; limit := limit p |}.

Definition set_blocks (b : PageState) (p : Pagination) : Pagination :=
  {| blocks := b; txs := txs p; proposals := proposals p |}.

Definition set_txs (t : PageState) (p : Pagination) : Pagination :=
  {| blocks := blocks p; txs := t; proposals := proposals p |}.

Definition set_proposals (r : PageState) (p : Pagination) : Pagination :=
  {| blocks := blocks p; txs := txs p; proposals := r |}.

(** *** Cache store and fetch gateway ([fetchAPI]) *)

(** The read at the head of [fetchAPI]: the entry of [key], when there is one
    and [Date.now() - cached.timestamp < this.cacheTimeout]. *)
Definition cache_get (c : gmap string CacheEntry) (timeout : Z) (t : Z) (key : string)
  : option json :=
  match c !! key with
  | Some cached => if t - timestamp cached <? timeout then Some (data cached) else None
  | None => None
  end.

(** The write at the end of [fetchAPI]:
    [this.cache.set(cacheKey, { data, timestamp: Date.now() })]. *)
Definition cache_put (key : string) (d : json) (t : Z) (c : gmap string CacheEntry)
  : gmap string CacheEntry :=
  <[key := {| data := d; timestamp := t |}]> c.

Definition fetchAPI (env : Env) (endpoint : string) (s : Sys) : completion json * Sys :=
  let cacheKey := endpoint in
  match cache_get (cache (self s)) (cacheTimeout (self s)) (now env) cacheKey with
  | Some d => (Return d, s)
  | None =>
      let url := apiUrl (self s) +:+ endpoint in
      let s1 := emit (HttpGet url) s in
      match reply (net env url) with
      | Rejected reason => (Throw (TypeError reason), s1)
      | Response status statusText _ body =>
          if negb (ok status)
          then (Throw (Error ("HTTP " +:+ pretty status +:+ ": " +:+ statusText)), s1)
          else match body with
               | None => (Throw (SyntaxError "Unexpected token"), s1)
               | Some d =>
                   (Return d,
                    with_self (fun a => set_cache
                      (cache_put cacheKey d (now env + latency (net env url)) (cache a)) a) s1)
               end
      end
  end.

(** *** Loaders

    Each loader is entered ([Invoke]), builds its endpoint from the view
    state, goes through [fetchAPI] and shows the result; a throw of the
    gateway ends in the loader's [catch] branch. Rendering itself (the DOM) is
    not modelled, nor a throw of the render code on data it cannot show, which
    would end in the same [catch] branch. *)

Definition finish (l : loader) (r : completion json * Sys) : Sys :=
  match r with
  | (Return d, s) => emit (Rendered l d) s
  | (Throw _, s) => emit (RenderedError l) s
  end.

Definition blocks_endpoint (a : AuraExplorer) : string :=
  let p := blocks (pagination a) in
  let offset := (page p - 1) * limit p in
  "/api/blocks?limit=" +:+ pretty (limit p) +:+ "&offset=" +:+ pretty offset.

Definition transactions_endpoint (a : AuraExplorer) : string :=
  let p := txs (pagination a) in
  let offset := (page p - 1) * limit p in
  let url := "/api/transactions?limit=" +:+ pretty (limit p) +:+ "&offset=" +:+ pretty offset in
  let url := if truthy (txType (filters a))
             then url +:+ "&type=" +:+ default "" (txType (filters a)) else url in
  if truthy (txStatus (filters a))
  then url +:+ "&status=" +:+ default "" (txStatus (filters a)) else url.

Definition proposals_endpoint (a : AuraExplorer) : string :=
  let p := proposals (pagination a) in
  let offset := (page p - 1) * limit p in
  let url := "/api/governance/proposals?limit=" +:+ pretty (limit p)
             +:+ "&offset=" +:+ pretty offset in
  if truthy (proposalStatus (filters a))
  then url +:+ "&status=" +:+ default "" (proposalStatus (filters a)) else url.

Definition loadBlocks (env : Env) (s : Sys) : Sys :=
  let s := emit (Invoke LoadBlocks) s in
  finish LoadBlocks (fetchAPI env (blocks_endpoint (self s)) s).

Definition loadTransactions (env : Env) (s : Sys) : Sys :=
  let s := emit (Invoke LoadTransactions) s in
  finish LoadTransactions (fetchAPI env (transactions_endpoint (self s)) s).

Definition loadValidators (env : Env) (s : Sys) : Sys :=
  let s := emit (Invoke LoadValidators) s in
  let sortBy := or_default (Some (validatorSort env)) "voting_power" in
  finish LoadValidators (fetchAPI env ("/api/validators?sort=" +:+ sortBy) s).

Definition loadProposals (env : Env) (s : Sys) : Sys :=
  let s := emit (Invoke LoadProposals) s in
  finish LoadProposals (fetchAPI env (proposals_endpoint (self s)) s).

(** Both requests of the [Promise.all] are issued; the data is shown when
    both return. *)
Definition loadStakingPool (env : Env) (s : Sys) : Sys :=
  let s := emit (Invoke LoadStakingPool) s in
  let (poolData, s) := fetchAPI env "/api/staking/pool" s in
  let (paramsData, s) := fetchAPI env "/api/staking/params" s in
  match poolData, paramsData with
  | Return d, Return _ => emit (Rendered LoadStakingPool d) s
  | _, _ => emit (RenderedError LoadStakingPool) s
  end.

Definition updateQuickStats (env : Env) (s : Sys) : Sys :=
  let s := emit (Invoke UpdateQuickStats) s in
  finish UpdateQuickStats (fetchAPI env "/api/stats" s).

Definition loadInitialData (env : Env) (s : Sys) : Sys :=
  updateQuickStats env
    (loadStakingPool env
      (loadProposals env
        (loadValidators env
          (loadTransactions env
            (loadBlocks env s))))).

(** *** Pagination *)

Definition prevBlocksPage (env : Env) (s : Sys) : Sys :=
  let p := blocks (pagination (self s)) in
  if 1 <? page p then
    loadBlocks env
      (with_self (fun a => set_pagination
         (set_blocks (set_page (page p - 1) p) (pagination a)) a) s)
  else s.

Definition nextBlocksPage (env : Env) (s : Sys) : Sys :=
  let p := blocks (pagination (self s)) in
  loadBlocks env
    (with_self (fun a => set_pagination
       (set_blocks (set_page (page p + 1) p) (pagination a)) a) s).

Definition prevTxsPage (env : Env) (s : Sys) : Sys :=
  let p := txs (pagination (self s)) in
  if 1 <? page p then
    loadTransactions env
      (with_self (fun a => set_pagination
         (set_txs (set_page (page p - 1) p) (pagination a)) a) s)
  else s.

Definition nextTxsPage (env : Env) (s : Sys) : Sys :=
  let p := txs (pagination (self s)) in
  loadTransactions env
    (with_self (fun a => set_pagination
       (set_txs (set_page (page p + 1) p) (pagination a)) a) s).

Definition prevProposalsPage (env : Env) (s : Sys) : Sys :=
  let p := proposals (pagination (self s)) in
  if 1 <? page p then
    loadProposals env
      (with_self (fun a => set_pagination
         (set_proposals (set_page (page p - 1) p) (pagination a)) a) s)
  else s.

Definition nextProposalsPage (env : Env) (s : Sys) : Sys :=
  let p := proposals (pagination (self s)) in
  loadProposals env
    (with_self (fun a => set_pagination
       (set_proposals (set_page (page p + 1) p) (pagination a)) a) s).

(** *** Filter controls (the [change] listeners of [attachEventListeners]) *)

Definition onTxTypeFilterChange (env : Env) (value : string) (s : Sys) : Sys :=
  let f := filters (self s) in
  loadTransactions env
    (with_self (set_filters {| txType := or_null value; txStatus := txStatus f;
                               proposalStatus := proposalStatus f |}) s).

Definition onTxStatusFilterChange (env : Env) (value : string) (s : Sys) : Sys :=
  let f := filters (self s) in
  loadTransactions env
    (with_self (set_filters {| txType := txType f; txStatus := or_null value;
                               proposalStatus := proposalStatus f |}) s).

Definition onProposalStatusFilterChange (env : Env) (value : string) (s : Sys) : Sys :=
  let f := filters (self s) in
  let s := with_self (set_filters {| txType := txType f; txStatus := txStatus f;
                                     proposalStatus := or_null value |}) s in
  let s := with_self (fun a => set_pagination
             (set_proposals (set_page 1 (proposals (pagination a))) (pagination a)) a) s in
  loadProposals env s.

(** *** Poll scheduler *)

(** The callback given to [setInterval]. *)
Definition refreshTick (env : Env) (s : Sys) : Sys :=
  let s := if page (blocks (pagination (self s))) =? 1 then loadBlocks env s else s in
  let s := if page (txs (pagination (self s))) =? 1 then loadTransactions env s else s in
  updateQuickStats env s.

Definition startAutoRefresh (s : Sys) : Sys :=
  match refreshInterval (self s) with
  | Some _ => s
  | None =>
      let h := next_handle s in
      {| self := set_refreshInterval (Some h) (self s);
         intervals := {[h]} ∪ intervals s;
         next_handle := Pos.succ h;
         channel := channel s;
         log := log s ++ [SetInterval h 10000] |}
  end.

Definition stopAutoRefresh (s : Sys) : Sys :=
  match refreshInterval (self s) with
  | Some h =>
      {| self := set_refreshInterval None (self s);
         intervals := intervals s ∖ {[h]};
         next_handle := next_handle s;
         channel := channel s;
         log := log s ++ [ClearInterval h] |}
  | None => s
  end.

(** The [change] listener of the auto-refresh toggle. *)
Definition onAutoRefreshChange (checked : bool) (s : Sys) : Sys :=
  let s := with_self (set_autoRefresh checked) s in
  if autoRefresh (self s) then startAutoRefresh s else stopAutoRefresh s.

(** *** Push channel *)

(** [updateWSStatus], with the indicator present in the page. *)
Definition updateWSStatus (status : string) (s : Sys) : Sys :=
  let shown :=
    if String.eqb status "connected" then Connected
    else if String.eqb status "disconnected" then Disconnected
    else if String.eqb status "error" then Errored
    else Connecting in
  {| self := self s; intervals := intervals s; next_handle := next_handle s;
     channel := shown; log := log s |}.

(** [initWebSocket]: the socket is created and its four handlers installed;
    when the constructor throws, the [catch] branch shows the error. *)
Definition initWebSocket (env : Env) (s : Sys) : Sys :=
  if ws_constructs env then
    emit (NewWebSocket (wsUrl (self s)))
         (with_self (fun a => set_ws (Some (wsUrl a)) a) s)
  else updateWSStatus "error" s.

Definition onopen (s : Sys) : Sys :=
  let s := updateWSStatus "connected" s in
  let s := emit (WsSend (Subscribe "blocks")) s in
  emit (WsSend (Subscribe "transactions")) s.

Definition handleNewBlock (env : Env) (blockData : json) (s : Sys) : Sys :=
  let s := with_self (fun a => set_cache (delete "blocks" (cache a)) a) s in
  let s := if page (blocks (pagination (self s))) =? 1 then loadBlocks env s else s in
  updateQuickStats env s.

Definition handleNewTransaction (env : Env) (txData : json) (s : Sys) : Sys :=
  let s := with_self (fun a => set_cache (delete "transactions" (cache a)) a) s in
  if page (txs (pagination (self s))) =? 1 then loadTransactions env s else s.

Definition handleWSMessage (env : Env) (message : ws_message) (s : Sys) : Sys :=
  if String.eqb (msg_type message) "new_block" then
    handleNewBlock env (msg_data message) s
  else if String.eqb (msg_type message) "new_transaction" then
    handleNewTransaction env (msg_data message) s
  else if String.eqb (msg_type message) "subscribed" then s
  else s.

(** [onmessage]: [parsed] is the result of [JSON.parse(event.data)], [None]
    when it throws or yields no object; the handler then ends without any
    effect. *)
Definition onmessage (env : Env) (parsed : option ws_message) (s : Sys) : Sys :=
  match parsed with
  | Some message => handleWSMessage env message s
  | None => s
  end.

Definition onerror (s : Sys) : Sys := updateWSStatus "error" s.

Definition onclose (s : Sys) : Sys :=
  emit (SetTimeoutInitWebSocket 5000) (updateWSStatus "disconnected" s).

(** [init] *)
Definition init (env : Env) (s : Sys) : Sys :=
  startAutoRefresh (loadInitialData env (initWebSocket env s)).

(** The browser right after [new AuraExplorer(config)]. *)
Definition boot (config : Config) : Sys :=
  {| self := constructor config; intervals := ∅; next_handle := 1%positive;
     channel := Connecting; log := [] |}.

(** *** The event loop *)

(** What the browser can deliver to the instance. *)
Inductive input : Type :=
| Init
| ClickPrevBlocks | ClickNextBlocks | ClickRefreshBlocks
| ClickPrevTxs | ClickNextTxs
| ChangeTxTypeFilter (value : string)
| ChangeTxStatusFilter (value : string)
| ChangeAutoRefresh (checked : bool)
| ChangeValidatorSort
| ClickPrevProposals | ClickNextProposals | ClickRefreshProposals
| ChangeProposalStatusFilter (value : string)
| IntervalTick
| ReconnectDue
| SocketOpen
| SocketMessage (parsed : option ws_message)
| SocketError
| SocketClose.

Definition dispatch (env : Env) (i : input) (s : Sys) : Sys :=
  match i with
  | Init => init env s
  | ClickPrevBlocks => prevBlocksPage env s
  | ClickNextBlocks => nextBlocksPage env s
  | ClickRefreshBlocks => loadBlocks env s
  | ClickPrevTxs => prevTxsPage env s
  | ClickNextTxs => nextTxsPage env s
  | ChangeTxTypeFilter value => onTxTypeFilterChange env value s
  | ChangeTxStatusFilter value => onTxStatusFilterChange env value s
  | ChangeAutoRefresh checked => onAutoRefreshChange checked s
  | ChangeValidatorSort => loadValidators env s
  | ClickPrevProposals => prevProposalsPage env s
  | ClickNextProposals => nextProposalsPage env s
  | ClickRefreshProposals => loadProposals env s
  | ChangeProposalStatusFilter value => onProposalStatusFilterChange env value s
  | IntervalTick => refreshTick env s
  | ReconnectDue => initWebSocket env s
  | SocketOpen => onopen s
  | SocketMessage parsed => onmessage env parsed s
  | SocketError => onerror s
  | SocketClose => onclose s
  end.

(** A run: the inputs in order of arrival, each with its surroundings. *)
Fixpoint run (inputs : list (Env * input)) (s : Sys) : Sys :=
  match inputs with
  | [] => s
  | (env, i) :: rest => run rest (dispatch env i s)
  end.

(** *** Observations on traces *)

(** The events a handler [f] appends to the trace of [s]. *)
Definition emitted (f : Sys -> Sys) (s : Sys) : list event :=
  drop (length (log s)) (log (f s)).

(** The loaders entered, in order. *)
Definition invoked (evs : list event) : list loader :=
  omap (fun e => match e with Invoke l => Some l | _ => None end) evs.

(** The URLs requested from the server, in order. *)
Definition requested (evs : list event) : list string :=
  omap (fun e => match e with HttpGet url => Some url | _ => None end) evs.

(** The delays of the reconnection attempts scheduled. *)
Definition reconnections (evs : list event) : list Z :=
  omap (fun e => match e with SetTimeoutInitWebSocket d => Some d | _ => None end) evs.

(** The interval timers created. *)
Definition timers_created (evs : list event) : list handle :=
  omap (fun e => match e with SetInterval h _ => Some h | _ => None end) evs.

End Explorer.

(** * Notions used in the statements *)

Module Notions.
Import Js Aura Explorer.

(** The characters [0] to [9]. *)
Definition decimal_digits : list ascii := list_ascii_of_string "0123456789".

(** The characters a hexadecimal numeral is written with, in both cases. *)
Definition hex_digits : list ascii := list_ascii_of_string "0123456789abcdefABCDEF".

(** A non-empty sequence of decimal digits. *)
Definition digits_only (s : string) : Prop :=
  s <> "" /\ Forall (fun c => c ∈ decimal_digits) (list_ascii_of_string s).

(** Exactly 64 hexadecimal characters. *)
Definition hex64 (s : string) : Prop :=
  String.length s = 64%nat /\ Forall (fun c => c ∈ hex_digits) (list_ascii_of_string s).

(** [{result:{block_id:{hash:'B10C'},block:{header:{height:'7'}}}}] *)
Definition block_answer : json :=
  JObj [("result", JObj [("block_id", JObj [("hash", JStr "B10C")]);
                         ("block", JObj [("header", JObj [("height", JStr "7")])])])].

(** [{result:{hash:'7A',height:'7'}}] *)
Definition tx_answer : json :=
  JObj [("result", JObj [("hash", JStr "7A"); ("height", JStr "7")])].

(** A node that answers every lookup. *)
Definition node_up : Rpc := {|
  rpc_block := fun _ => Response 200 "OK" "{}" (Some block_answer);
  rpc_tx := fun _ => Response 200 "OK" "{}" (Some tx_answer)
|}.

(** A node that cannot be reached. *)
Definition node_down : Rpc := {|
  rpc_block := fun _ => Rejected "Failed to fetch";
  rpc_tx := fun _ => Rejected "Failed to fetch"
|}.

Definition sample_hash : string :=
  "aaaaaaaaaaaaaaaaaaaaaaaaaaaaaaaaaaaaaaaaaaaaaaaaaaaaaaaaaaaaaaaa".

Definition sample_HASH : string :=
  "0xAAAAAAAAAAAAAAAAAAAAAAAAAAAAAAAAAAAAAAAAAAAAAAAAAAAAAAAAAAAAAAAA".

(** The three paginated resources and their controls. *)
Inductive resource : Type := Blocks | Transactions | Proposals.

Definition view (r : resource) (s : Sys) : PageState :=
  match r with
  | Blocks => blocks (pagination (self s))
  | Transactions => txs (pagination (self s))
  | Proposals => proposals (pagination (self s))
  end.

Definition loader_of (r : resource) : loader :=
  match r with
  | Blocks => LoadBlocks
  | Transactions => LoadTransactions
  | Proposals => LoadProposals
  end.

Definition nextPage (r : resource) : Env -> Sys -> Sys :=
  match r with
  | Blocks => nextBlocksPage
  | Transactions => nextTxsPage
  | Proposals => nextProposalsPage
  end.

Definition prevPage (r : resource) : Env -> Sys -> Sys :=
  match r with
  | Blocks => prevBlocksPage
  | Transactions => prevTxsPage
  | Proposals => prevProposalsPage
  end.

(** A handler that leaves the instance alone except for its cache, and
    appends [evs] to the trace. *)
Definition touch (c : gmap string CacheEntry) (evs : list event) (s : Sys) : Sys :=
  {| self := set_cache c (self s); intervals := intervals s;
     next_handle := next_handle s; channel := channel s; log := log s ++ evs |}.

(** One write to the cache store. *)
Record put_call : Type := { put_key : string; put_data : json; put_time : Z }.

(** The cache after the writes of [h], oldest first. *)
Definition run_puts (h : list put_call) (c : gmap string CacheEntry)
  : gmap string CacheEntry :=
  foldl (fun c p => cache_put (put_key p) (put_data p) (put_time p) c) c h.

(** The writes are listed in the order of their times. *)
Definition chronological (h : list put_call) : Prop :=
  forall (i j : nat) (p q : put_call),
    (i <= j)%nat -> h !! i = Some p -> h !! j = Some q -> put_time p <= put_time q.

(** The latest write to [key]. *)
Fixpoint last_put (key : string) (h : list put_call) : option put_call :=
  match h with
  | [] => None
  | p :: h' =>
      match last_put key h' with
      | Some q => Some q
      | None => if String.eqb (put_key p) key then Some p else None
      end
  end.

(** The interval timers that are active are the one whose handle the
    instance holds, if it holds one. *)
Definition timer_inv (s : Sys) : Prop :=
  intervals s = match refreshInterval (self s) with
                | Some h => {[h]}
                | None => ∅
                end.

(** Every view is on a page from 1 on. *)
Definition pages_inv (s : Sys) : Prop :=
  forall r, 1 <= page (view r s).

Definition default_config : Config := {| config_apiUrl := None; config_wsUrl := None |}.

(** [{blocks:[{height:100}]}] *)
Definition payload_100 : json :=
  JObj [("blocks", JArr [JObj [("height", JNum 100)]])].

(** [{blocks:[{height:101},{height:100}]}] *)
Definition payload_101 : json :=
  JObj [("blocks", JArr [JObj [("height", JNum 101)]; JObj [("height", JNum 100)]])].

(** A server that answers every request with [d] after 30 ms, seen at time
    [t] by a browser in which sockets can be opened. *)
Definition env_at (t : Z) (d : json) : Env :=
  {| now := t;
     net := fun _ => {| reply := Response 200 "OK" "" (Some d); latency := 30 |};
     validatorSort := "";
     ws_constructs := true |}.

(** A server that cannot be reached, at time [t]. *)
Definition env_down (t : Z) : Env :=
  {| now := t;
     net := fun _ => {| reply := Rejected "Failed to fetch"; latency := 30 |};
     validatorSort := "";
     ws_constructs := true |}.

(** The same server as [env_at t payload_100], in a browser in which
    [new WebSocket] throws. *)
Definition no_socket_at (t : Z) : Env :=
  {| now := t;
     net := net (env_at t payload_100);
     validatorSort := "";
     ws_constructs := false |}.

(** The session after [init] at time 0 against a server that knows block
    100. *)
Definition loaded : Sys := run [(env_at 0 payload_100, Init)] (boot default_config).

Definition new_block_101 : ws_message :=
  {| msg_type := "new_block"; msg_data := JObj [("height", JNum 101)] |}.

Definition first_blocks_page : string := "/api/blocks?limit=20&offset=0".

(** Events that are neither the entry of a loader, nor a timer. *)
Definition quiet (evs : list event) : Prop :=
  invoked evs = [] /\ reconnections evs = [] /\ timers_created evs = [].

(** A loader [l] is a handler that is entered once and otherwise only reads
    and fills the cache. *)
Definition loads (l : loader) (f : Sys -> Sys) : Prop :=
  forall s, exists c evs, f s = touch c (Invoke l :: evs) s /\ quiet evs.

(** No request, or a single one for [url]. *)
Definition at_most_once (url : string) (urls : list string) : Prop :=
  urls = [] \/ urls = [url].

(** Three writes, two of them to the first page of blocks. *)
Definition history_sample : list put_call :=
  [ {| put_key := first_blocks_page; put_data := payload_100; put_time := 0 |};
    {| put_key := "/api/stats"; put_data := JNull; put_time := 1500 |};
    {| put_key := first_blocks_page; put_data := payload_101; put_time := 3000 |} ].

End Notions.

(** * Further code of the two clients *)

(** ** Display helpers of the frontend ([truncateHash], [truncateAddr],
    [truncateText]) *)

Module Display.
Import Js.

(** [s.slice(0, n)] and [s.substring(0, n)] for [0 <= n]. *)
Fixpoint take (n : nat) (s : string) : string :=
  match n, s with
  | O, _ => EmptyString
  | S _, EmptyString => EmptyString
  | S n', String c s' => String c (take n' s')
  end.

(** [s.slice(-n)] for [0 < n]: the last [n] characters, all of [s] when it
    is shorter. *)
Definition last_chars (n : nat) (s : string) : string :=
  slice (String.length s - n) s.

(** The argument is a string or missing ([None] for [undefined] and
    [null]); the empty string is falsy like a missing one. *)
Definition truncateHash (hash : option string) : string :=
  match hash with
  | None => "-"
  | Some h =>
      if String.eqb h "" then "-"
      else if (16 <? String.length h)%nat
           then take 8 h +:+ "..." +:+ last_chars 8 h
           else h
  end.

Definition truncateAddr (addr : option string) : string :=
  match addr with
  | None => "-"
  | Some a =>
      if String.eqb a "" then "-"
      else if (20 <? String.length a)%nat
           then take 10 a +:+ "..." +:+ last_chars 8 a
           else a
  end.

(** [maxLength] is an integer; [substring] takes a negative end for 0. *)
Definition truncateText (text : option string) (maxLength : Z) : string :=
  match text with
  | None => ""
  | Some t =>
      if String.eqb t "" then ""
      else if maxLength <? Z.of_nat (String.length t)
           then take (Z.to_nat maxLength) t +:+ "..."
           else t
  end.

End Display.

(** ** Search and staking lookup of the frontend ([search],
    [lookupStaking]) *)

Module Lookup.
Import Js Explorer.

(** The characters [encodeURIComponent] leaves as they are: letters,
    digits and [- _ . ! ~ * ' ( )]. *)
Definition unreserved (c : ascii) : bool :=
  (((48 <=? code c) && (code c <=? 57))
   || ((65 <=? code c) && (code c <=? 90))
   || ((97 <=? code c) && (code c <=? 122)))%N
  || existsb (Ascii.eqb c) (list_ascii_of_string "-_.!~*'()").

Definition hex_digit (n : N) : ascii :=
  nth (N.to_nat n) (list_ascii_of_string "0123456789ABCDEF") "0"%char.

(** [%XX] for one byte. *)
Definition percent (byte : N) : string :=
  String "%" (String (hex_digit (byte / 16)) (String (hex_digit (byte mod 16)) "")).

(** One code unit below 256: itself when unreserved, else the bytes of its
    UTF-8 encoding (one below 128, two from 128 on), each as [%XX]. *)
Definition encode_char (c : ascii) : string :=
  if unreserved c then String c ""
  else if (code c <? 128)%N then percent (code c)
  else (percent (192 + code c / 64) +:+ percent (128 + code c mod 64))%N.

Fixpoint encodeURIComponent (s : string) : string :=
  match s with
  | EmptyString => EmptyString
  | String c s' => encode_char c +:+ encodeURIComponent s'
  end.

(** [v === 'text'] *)
Definition is_string (v : option json) (text : string) : bool :=
  match v with
  | Some (JStr s) => String.eqb s text
  | _ => false
  end.

(** What a lookup ends with: nothing, one of the three detail views (whose
    argument may be [undefined]), the staking results, or an alert. *)
Inductive shown : Type :=
| ShowNothing
| ViewBlock (height : option json)
| ViewTx (hash : option json)
| ViewAddress (address : option json)
| StakingResults (delegations unbonding rewards : json)
| Alert (message : string).

(** [data.result.name] *)
Definition result_of (data : json) (name : string) : completion (option json) :=
  match get (Some data) "result" with
  | Throw e => Throw e
  | Return r => get r name
  end.

Definition search_failed (err : exn) : shown :=
  Alert ("Search failed: " +:+ message_of err).

(** [search]; [searchInput] is the value of the input element, [None] when
    the element is missing. *)
Definition search (env : Env) (searchInput : option string) (s : Sys) : shown * Sys :=
  match searchInput with
  | None => (ShowNothing, s)
  | Some value =>
      let query := trim value in
      if String.eqb query "" then (ShowNothing, s)
      else
        match fetchAPI env ("/api/search?q=" +:+ encodeURIComponent query) s with
        | (Throw err, s') => (search_failed err, s')
        | (Return data, s') =>
            match get (Some data) "type" with
            | Throw err => (search_failed err, s')
            | Return ty =>
                if is_string ty "block" then
                  match result_of data "height" with
                  | Return h => (ViewBlock h, s')
                  | Throw err => (search_failed err, s')
                  end
                else if is_string ty "transaction" then
                  match result_of data "hash" with
                  | Return h => (ViewTx h, s')
                  | Throw err => (search_failed err, s')
                  end
                else if is_string ty "address" then
                  match result_of data "address" with
                  | Return a => (ViewAddress a, s')
                  | Throw err => (search_failed err, s')
                  end
                else (Alert "No results found", s')
            end
        end
  end.

(** [lookupStaking]; the three requests of the [Promise.all] are all
    issued, and [renderStakingResults] is called with the three answers when
    all of them return. *)
Definition lookupStaking (env : Env) (stakingAddressInput : option string) (s : Sys)
  : shown * Sys :=
  match stakingAddressInput with
  | None => (Alert "Please enter an address", s)
  | Some value =>
      let address := trim value in
      if String.eqb address "" then (Alert "Please enter an address", s)
      else if negb (startsWith address "aura")
      then (Alert "Please enter a valid AURA address", s)
      else
        let (delegations, s1) := fetchAPI env ("/api/staking/delegations/" +:+ address) s in
        let (unbonding, s2) := fetchAPI env ("/api/staking/unbonding/" +:+ address) s1 in
        let (rewards, s3) := fetchAPI env ("/api/staking/rewards/" +:+ address) s2 in
        match delegations, unbonding, rewards with
        | Return d, Return u, Return r => (StakingResults d u r, s3)
        | _, _, _ => (Alert "Failed to lookup staking information", s3)
        end
  end.

(** Everything the browser can deliver to the instance, the two lookups
    included. *)
Inductive action : Type :=
| Core (i : input)
| Search (searchInput : option string)
| LookupStaking (stakingAddressInput : option string).

Definition perform (env : Env) (a : action) (s : Sys) : Sys :=
  match a with
  | Core i => dispatch env i s
  | Search searchInput => snd (search env searchInput s)
  | LookupStaking stakingAddressInput => snd (lookupStaking env stakingAddressInput s)
  end.

Fixpoint session (actions : list (Env * action)) (s : Sys) : Sys :=
  match actions with
  | [] => s
  | (env, a) :: rest => session rest (perform env a s)
  end.

End Lookup.

(** ** The polling hook of the ping-pub explorer ([usePolling]) *)

Module Polling.

(** One run of the effect: the flag [isCancelled], the timeouts
    [setTimeout(tick, interval)] that are pending, the ticks that await their
    callback, and counters of the callback invocations and of the errors
    logged. *)
Record Poller : Type := {
  isCancelled : bool;
  timeouts : nat;
  awaiting : nat;
  calls : nat;
  errors : nat
}.

(** The effect has run: [tick()] was called and awaits the callback. *)
Definition mount : Poller :=
  {| isCancelled := false; timeouts := 0; awaiting := 1; calls := 1; errors := 0 |}.

Inductive poll_event : Type :=
| TimeoutFires                       (* a pending timeout calls [tick] *)
| CallbackSettles (fulfilled : bool) (* the awaited callback returns or throws *)
| Cleanup.                           (* the function returned by the effect *)

(** [None]: the event cannot happen in this state. *)
Definition poll_step (e : poll_event) (p : Poller) : option Poller :=
  match e with
  | TimeoutFires =>
      match timeouts p with
      | O => None
      | S t =>
          Some {| isCancelled := isCancelled p; timeouts := t;
                  awaiting := S (awaiting p); calls := S (calls p);
                  errors := errors p |}
      end
  | CallbackSettles fulfilled =>
      match awaiting p with
      | O => None
      | S a =>
          Some {| isCancelled := isCancelled p;
                  timeouts := if isCancelled p then timeouts p else S (timeouts p);
                  awaiting := a; calls := calls p;
                  errors := if fulfilled then errors p else S (errors p) |}
      end
  | Cleanup =>
      Some {| isCancelled := true; timeouts := timeouts p; awaiting := awaiting p;
              calls := calls p; errors := errors p |}
  end.

Fixpoint poll_run (es : list poll_event) (p : Poller) : option Poller :=
  match es with
  | [] => Some p
  | e :: rest =>
      match poll_step e p with
      | Some p' => poll_run rest p'
      | None => None
      end
  end.

End Polling.

(** ** Notions used in the further statements *)

Module MoreNotions.
Import Js Aura Explorer Notions Lookup.

(** Every key of the cache is an endpoint under [/api/]. *)
Definition api_keys (c : gmap string CacheEntry) : Prop :=
  forall key, is_Some (c !! key) -> startsWith key "/api/" = true.

(** The characters of the canonical form of a hash. *)
Definition upper_hex_digits : list ascii := list_ascii_of_string "0123456789ABCDEF".

(** Characters that cannot end or extend a query parameter. *)
Definition url_safe (c : ascii) : Prop :=
  c ∉ list_ascii_of_string "&=?#/+ ".

(** The events [evs] enter exactly the loaders [ls], in this order, and
    schedule no reconnection and no timer. *)
Definition entered (ls : list loader) (evs : list event) : Prop :=
  invoked evs = ls /\ reconnections evs = [] /\ timers_created evs = [].

(** A handler that only runs loaders: it is a [touch] whose events enter
    the loaders [ls]. *)
Definition runs (ls : list loader) (f : Sys -> Sys) (s : Sys) : Prop :=
  exists c evs, f s = touch c evs s /\ entered ls evs.

(** The six loaders of [loadInitialData], in the order of their calls. *)
Definition initial_loaders : list loader :=
  [LoadBlocks; LoadTransactions; LoadValidators; LoadProposals;
   LoadStakingPool; UpdateQuickStats].

(** The value of a hexadecimal digit in upper case. *)
Definition hex_value (c : ascii) : N :=
  if (code c <? 58)%N then (code c - 48)%N else (code c - 55)%N.

(** Reads back the first character [encodeURIComponent] wrote: an escape
    of one byte, an escape of two bytes, or a character written as it is. *)
Definition decode_first (s : string) : option (ascii * string) :=
  match s with
  | EmptyString => None
  | String "%" (String a (String b rest)) =>
      let byte := (16 * hex_value a + hex_value b)%N in
      if (byte <? 128)%N then Some (ascii_of_N byte, rest)
      else match rest with
           | String "%" (String a' (String b' rest')) =>
               let byte' := (16 * hex_value a' + hex_value b')%N in
               Some (ascii_of_N ((byte - 192) * 64 + (byte' - 128)), rest')
           | _ => None
           end
  | String c rest => Some (c, rest)
  end.

(** The events of one call of [fetchAPI]: a request unless the cache has a
    fresh entry. *)
Definition gateway_events (env : Env) (endpoint : string) (s : Sys) : list event :=
  match cache_get (cache (self s)) (cacheTimeout (self s)) (now env) endpoint with
  | Some _ => []
  | None => [HttpGet (apiUrl (self s) +:+ endpoint)]
  end.

(** The endpoint the loader of a view asks for. *)
Definition endpoint_of (r : resource) : AuraExplorer -> string :=
  match r with
  | Blocks => blocks_endpoint
  | Transactions => transactions_endpoint
  | Proposals => proposals_endpoint
  end.

(** The instance with the view of [r] moved to page [n]. *)
Definition on_page (r : resource) (n : Z) (a : AuraExplorer) : AuraExplorer :=
  set_pagination
    match r with
    | Blocks => set_blocks (set_page n (blocks (pagination a))) (pagination a)
    | Transactions => set_txs (set_page n (txs (pagination a))) (pagination a)
    | Proposals => set_proposals (set_page n (proposals (pagination a))) (pagination a)
    end a.

(** What the constructor fixes for the whole session. *)
Definition settings (s : Sys) : Z * Z * Z * Z * string * string :=
  (limit (blocks (pagination (self s))), limit (txs (pagination (self s))),
   limit (proposals (pagination (self s))), cacheTimeout (self s),
   apiUrl (self s), wsUrl (self s)).

(** The answer has no [result] to read from: it is [null], or its member
    [result] is missing or [null]. *)
Definition no_result (v : json) : Prop :=
  forall r, get (Some v) "result" = Return (Some r) -> r = JNull.

(** A node that answers every lookup with [{}]. *)
Definition node_empty : Rpc := {|
  rpc_block := fun _ => Response 200 "OK" "{}" (Some (JObj []));
  rpc_tx := fun _ => Response 200 "OK" "{}" (Some (JObj []))
|}.

(** A well-formed hash that is also a digit sequence. *)
Definition sixty_four_digits : string :=
  "1234567890123456789012345678901234567890123456789012345678901234".

(** A server that answers every request with [d] at once. *)
Definition answering (t : Z) (d : json) : Env :=
  {| now := t;
     net := fun _ => {| reply := Response 200 "OK" "" (Some d); latency := 0 |};
     validatorSort := "";
     ws_constructs := true |}.

End MoreNotions.

(** * Properties *)

(** ** Characters and strings *)

Module JsFacts.
Import Js Notions.

Lemma is_digit_spec (c : ascii) : is_digit c = bool_decide (c ∈ decimal_digits).
Proof. destruct c as [[] [] [] [] [] [] [] []]; vm_compute; reflexivity. Qed.

Lemma is_hex_spec (c : ascii) : is_hex c = bool_decide (c ∈ hex_digits).
Proof. destruct c as [[] [] [] [] [] [] [] []]; vm_compute; reflexivity. Qed.

Lemma all_chars_Forall (p : ascii -> bool) (s : string) :
  all_chars p s = true <-> Forall (fun c => p c = true) (list_ascii_of_string s).
Proof.
  induction s as [|c s IH]; simpl.
  - split; [constructor | reflexivity].
  - rewrite andb_true_iff, IH. split.
    + intros [Hc Hs]. constructor; assumption.
    + intros H. inversion H; subst. split; assumption.
Qed.

Lemma test_digits_spec (s : string) : test_digits s = true <-> digits_only s.
Proof.
  unfold digits_only. destruct s as [|c s].
  - simpl. split; [discriminate | intros [H _]; congruence].
  - unfold test_digits. rewrite all_chars_Forall. split.
    + intros H. split; [discriminate |].
      eapply Forall_impl; [exact H |]. intros a Ha. simpl in Ha.
      rewrite is_digit_spec in Ha. apply bool_decide_eq_true in Ha. exact Ha.
    + intros [_ H]. eapply Forall_impl; [exact H |]. intros a Ha. simpl.
      rewrite is_digit_spec. apply bool_decide_eq_true. exact Ha.
Qed.

Lemma test_hex64_spec (s : string) : test_hex64 s = true <-> hex64 s.
Proof.
  unfold test_hex64, hex64. rewrite andb_true_iff, Nat.eqb_eq, all_chars_Forall.
  split; intros [Hl H]; (split; [exact Hl |]);
    (eapply Forall_impl; [exact H |]); intros a Ha; simpl in *.
  - rewrite is_hex_spec in Ha. apply bool_decide_eq_true in Ha. exact Ha.
  - rewrite is_hex_spec. apply bool_decide_eq_true. exact Ha.
Qed.

Lemma test_digits_false (s : string) : ~ digits_only s -> test_digits s = false.
Proof.
  intros H. destruct (test_digits s) eqn:E; [| reflexivity].
  exfalso. apply H, test_digits_spec, E.
Qed.

Lemma test_hex64_false (s : string) : ~ hex64 s -> test_hex64 s = false.
Proof.
  intros H. destruct (test_hex64 s) eqn:E; [| reflexivity].
  exfalso. apply H, test_hex64_spec, E.
Qed.

(** [Number] is exact on digit sequences below 2^53. *)
Lemma Number_exact (s : string) :
  digits_only s -> (decimal s < 2 ^ 53)%N -> Number s = Finite (decimal s).
Proof.
  intros Hd Hlt. unfold Number. apply test_digits_spec in Hd. rewrite Hd.
  unfold to_double. apply N.ltb_lt in Hlt. rewrite Hlt. reflexivity.
Qed.

(** The prefix [normalizeHash] removes is [0x] in either case of the [x]. *)
Lemma lower_char_is_zero (c : ascii) : lower_char c = "0"%char <-> c = "0"%char.
Proof.
  destruct c as [[] [] [] [] [] [] [] []]; vm_compute; split; congruence.
Qed.

Lemma lower_char_is_x (c : ascii) :
  lower_char c = "x"%char <-> c = "x"%char \/ c = "X"%char.
Proof.
  destruct c as [[] [] [] [] [] [] [] []]; vm_compute;
    (split; [intros H; first [discriminate H | left; reflexivity | right; reflexivity]
            | intros [H | H]; first [discriminate H | reflexivity]]).
Qed.

End JsFacts.

(** ** The search resolver *)

Module AuraFacts.
Import Js Aura Notions JsFacts.

Lemma strip_0x_prefixed (x : ascii) (r : string) :
  x = "x"%char \/ x = "X"%char -> strip_0x (String "0" (String x r)) = r.
Proof.
  intros Hx. unfold strip_0x, toLowerCase. cbn [map_chars startsWith].
  apply <- lower_char_is_x in Hx. rewrite Hx.
  destruct r; reflexivity.
Qed.

Lemma strip_0x_unprefixed (q : string) :
  (forall x r, q = String "0" (String x r) -> x <> "x"%char /\ x <> "X"%char) ->
  strip_0x q = q.
Proof.
  intros H. unfold strip_0x, toLowerCase.
  destruct q as [|c1 [|c2 r]]; cbn [map_chars startsWith]; try reflexivity.
  - destruct (Ascii.eqb "0" (lower_char c1)); reflexivity.
  - destruct (Ascii.eqb_spec "0" (lower_char c1)) as [E1|]; [| reflexivity].
    destruct (Ascii.eqb_spec "x" (lower_char c2)) as [E2|]; [| reflexivity].
    exfalso. symmetry in E1, E2.
    apply -> lower_char_is_zero in E1. apply -> lower_char_is_x in E2. subst c1.
    destruct (H c2 r eq_refl) as [Hx HX]. destruct E2; contradiction.
Qed.

Lemma normalizeHash_hex (q : string) :
  hex64 (strip_0x q) -> normalizeHash q = Some ("0x" +:+ toUpperCase (strip_0x q)).
Proof.
  intros H. unfold normalizeHash. apply test_hex64_spec in H. rewrite H. reflexivity.
Qed.

Lemma normalizeHash_other (q : string) :
  ~ hex64 (strip_0x q) -> normalizeHash q = None.
Proof.
  intros H. unfold normalizeHash. rewrite (test_hex64_false _ H). reflexivity.
Qed.

(** The requests of [searchLedger], by the class of the query. *)
Lemma searchLedger_requests (rpc : Rpc) (q : string) :
  fst (searchLedger rpc q) =
    if test_digits q then [GetBlock (Number q)]
    else match normalizeHash q with
         | Some h => [GetTx h]
         | None => []
         end.
Proof.
  unfold searchLedger. destruct (test_digits q).
  - destruct (fetchJson _); reflexivity.
  - destruct (normalizeHash q); [| reflexivity].
    destruct (fetchJson _); reflexivity.
Qed.

Lemma onSearch_requests (rpc : Rpc) (value : string) :
  trim value <> "" ->
  fst (onSearch rpc value) = fst (searchLedger rpc (trim value)).
Proof.
  intros Hne. unfold onSearch.
  destruct (String.eqb_spec (trim value) "") as [E|_]; [contradiction |].
  destruct (searchLedger rpc (trim value)) as [reqs [[r|]|e]]; reflexivity.
Qed.

Lemma fetchJson_failed {T} (r : fetched T) :
  transport_failed r = true -> exists e, fetchJson r = Throw e.
Proof.
  destruct r as [reason | status statusText text body]; simpl; intros H.
  - eexists; reflexivity.
  - rewrite H. eexists; reflexivity.
Qed.

(** C3, as stated, fails: for a transaction hash the lookup of an unreachable
    node does not reach the caller as an error. [searchLedger] returns
    [null], the very result of a query that matches nothing, and [onSearch]
    shows the no-match message for both. *)
Lemma tx_lookup_failure_reported_as_not_found :
  normalizeHash sample_hash = Some sample_HASH /\
  transport_failed (rpc_tx node_down sample_HASH) = true /\
  searchLedger node_down sample_hash = ([GetTx sample_HASH], Return None) /\
  (forall e, snd (searchLedger node_down sample_hash) <> Throw e) /\
  snd (searchLedger node_down sample_hash) = snd (searchLedger node_up "no such thing") /\
  snd (onSearch node_down sample_hash) = snd (onSearch node_up "no such thing").
Proof.
  repeat split; try (vm_compute; reflexivity).
  intros e. vm_compute. discriminate.
Qed.

(** C3, amended: a failed block-height lookup is thrown to the caller, and
    [onSearch] shows its message; a failed transaction lookup is caught and
    answered with [null], which [onSearch] shows as no match. *)
Theorem search_failure_outcomes (rpc : Rpc) (query : string) :
  (digits_only query ->
   transport_failed (rpc_block rpc (Number query)) = true ->
   exists e, searchLedger rpc query = ([GetBlock (Number query)], Throw e) /\
             (query = trim query ->
              searchError (snd (onSearch rpc query)) = Some (message_of e))) /\
  (~ digits_only query ->
   forall h, normalizeHash query = Some h ->
   transport_failed (rpc_tx rpc h) = true ->
   searchLedger rpc query = ([GetTx h], Return None) /\
   (query = trim query ->
    searchError (snd (onSearch rpc query)) = Some "No block or transaction found.")).
Proof.
  split.
  - intros Hd Hf. pose proof Hd as Hq. apply test_digits_spec in Hd.
    destruct (fetchJson_failed _ Hf) as [e He]. exists e.
    assert (Hs : searchLedger rpc query = ([GetBlock (Number query)], Throw e)).
    { unfold searchLedger. rewrite Hd, He. reflexivity. }
    split; [exact Hs |]. intros Ht. unfold onSearch. rewrite <- Ht.
    destruct (String.eqb_spec query "") as [E|_].
    + destruct Hq as [Hne _]. contradiction.
    + rewrite Hs. reflexivity.
  - intros Hd h Hh Hf. apply test_digits_false in Hd.
    destruct (fetchJson_failed _ Hf) as [e He].
    assert (Hs : searchLedger rpc query = ([GetTx h], Return None)).
    { unfold searchLedger. rewrite Hd, Hh, He. reflexivity. }
    split; [exact Hs |]. intros Ht. unfold onSearch. rewrite <- Ht.
    destruct (String.eqb_spec query "") as [E|_].
    + subst query. vm_compute in Hh. discriminate.
    + rewrite Hs. reflexivity.
Qed.

Lemma search_failure_outcomes_witness :
  (exists e, searchLedger node_down "12345" = ([GetBlock (Finite 12345)], Throw e) /\
             searchError (snd (onSearch node_down "12345")) = Some (message_of e)) /\
  searchLedger node_down sample_hash = ([GetTx sample_HASH], Return None) /\
  searchError (snd (onSearch node_down sample_hash)) = Some "No block or transaction found.".
Proof.
  split.
  - destruct (search_failure_outcomes node_down "12345") as [H _].
    destruct H as [e [Hs Ho]].
    + apply test_digits_spec. reflexivity.
    + reflexivity.
    + exists e. split; [exact Hs | apply Ho; reflexivity].
  - destruct (search_failure_outcomes node_down sample_hash) as [_ H].
    destruct (H (fun Hd => ltac:(apply test_digits_spec in Hd; discriminate Hd))
                sample_HASH eq_refl eq_refl) as [Hs Ho].
    split; [exact Hs | apply Ho; reflexivity].
Defined.

(** C4, as stated, fails in its last rule: a query that is neither a digit
    sequence nor a hash is not looked up as an address. The resolver issues no
    request at all and answers [null]. Two details of the first two rules:
    the prefix is also removed when written [0X], and a digit sequence from
    2^53 on is looked up at the double nearest to it. *)
Lemma address_query_is_not_looked_up :
  ~ digits_only "aura1qypqxpq9qcrsszg2pvxq6rs0zqg3yyc5" /\
  ~ hex64 (strip_0x "aura1qypqxpq9qcrsszg2pvxq6rs0zqg3yyc5") /\
  searchLedger node_up "aura1qypqxpq9qcrsszg2pvxq6rs0zqg3yyc5" = ([], Return None) /\
  onSearch node_up "aura1qypqxpq9qcrsszg2pvxq6rs0zqg3yyc5" =
    ([], {| searchResult := None;
            searchError := Some "No block or transaction found." |}) /\
  fst (searchLedger node_up ("0X" +:+ sample_hash)) = [GetTx sample_HASH] /\
  fst (searchLedger node_up "9007199254740993") = [GetBlock (Finite 9007199254740992)].
Proof.
  split; [| split; [| split; [| split; [| split]]]].
  - intros H. apply test_digits_spec in H. discriminate H.
  - intros H. apply test_hex64_spec in H. discriminate H.
  - reflexivity.
  - reflexivity.
  - reflexivity.
  - vm_compute. reflexivity.
Qed.

(** C4, amended: for a query whose trimmed form [q] is not empty, the first
    rule that applies decides. (1) [q] is a digit sequence: one block lookup,
    for [Number q], which is the number written when that is below 2^53.
    (2) Otherwise [q] without its optional [0x] or [0X] prefix is 64
    hexadecimal characters: one transaction lookup, for the hash in upper case
    behind [0x]. (3) Otherwise: no lookup, and the answer is no match. *)
Theorem search_classification (rpc : Rpc) (value : string) :
  trim value <> "" ->
  let q := trim value in
  (digits_only q ->
   fst (onSearch rpc value) = [GetBlock (Number q)] /\
   ((decimal q < 2 ^ 53)%N -> Number q = Finite (decimal q))) /\
  (~ digits_only q -> hex64 (strip_0x q) ->
   fst (onSearch rpc value) = [GetTx ("0x" +:+ toUpperCase (strip_0x q))]) /\
  (~ digits_only q -> ~ hex64 (strip_0x q) ->
   onSearch rpc value =
     ([], {| searchResult := None;
             searchError := Some "No block or transaction found." |})).
Proof.
  intros Hne q. split; [| split].
  - intros Hd. split.
    + rewrite (onSearch_requests _ _ Hne), searchLedger_requests.
      apply test_digits_spec in Hd. fold q. rewrite Hd. reflexivity.
    + intros Hlt. apply Number_exact; assumption.
  - intros Hd Hh.
    rewrite (onSearch_requests _ _ Hne), searchLedger_requests. fold q.
    rewrite (test_digits_false _ Hd), (normalizeHash_hex _ Hh). reflexivity.
  - intros Hd Hh. unfold onSearch. fold q.
    destruct (String.eqb_spec q "") as [E|_]; [contradiction |].
    unfold searchLedger.
    rewrite (test_digits_false _ Hd), (normalizeHash_other _ Hh). reflexivity.
Qed.

Lemma search_classification_witness :
  fst (onSearch node_up "  12345 ") = [GetBlock (Finite 12345)] /\
  fst (onSearch node_up ("0X" +:+ sample_hash)) = [GetTx sample_HASH] /\
  fst (onSearch node_up sample_hash) = [GetTx sample_HASH] /\
  onSearch node_up " aura1qypqxpq9 " =
    ([], {| searchResult := None;
            searchError := Some "No block or transaction found." |}).
Proof.
  assert (Hnd : forall s, test_digits s = false -> ~ digits_only s).
  { intros s E H. apply test_digits_spec in H. congruence. }
  assert (Hnh : forall s, test_hex64 s = false -> ~ hex64 s).
  { intros s E H. apply test_hex64_spec in H. congruence. }
  split; [| split; [| split]].
  - destruct (search_classification node_up "  12345 ") as [H _].
    + discriminate.
    + destruct H as [H _]; [apply test_digits_spec; reflexivity | exact H].
  - destruct (search_classification node_up ("0X" +:+ sample_hash)) as [_ [H _]].
    + discriminate.
    + apply H; [apply Hnd; reflexivity | apply test_hex64_spec; reflexivity].
  - destruct (search_classification node_up sample_hash) as [_ [H _]].
    + discriminate.
    + apply H; [apply Hnd; reflexivity | apply test_hex64_spec; reflexivity].
  - destruct (search_classification node_up " aura1qypqxpq9 ") as [_ [_ H]].
    + discriminate.
    + apply H; [apply Hnd; reflexivity | apply Hnh; reflexivity].
Defined.

End AuraFacts.

(** ** The cache store and the fetch gateway *)

Module CacheFacts.
Import Js Explorer Notions.

Lemma run_puts_lookup (h : list put_call) (c : gmap string CacheEntry) (key : string) :
  run_puts h c !! key =
    match last_put key h with
    | Some p => Some {| data := put_data p; timestamp := put_time p |}
    | None => c !! key
    end.
Proof.
  revert c. induction h as [|p h IH]; intros c; [reflexivity |].
  unfold run_puts in *. cbn [foldl last_put]. rewrite IH.
  destruct (last_put key h) as [q|]; [reflexivity |].
  unfold cache_put. destruct (String.eqb_spec (put_key p) key) as [E|E].
  - rewrite E. apply lookup_insert_eq.
  - apply lookup_insert_ne. exact E.
Qed.

(** The latest write to a key sits behind every other write to it. *)
Lemma last_put_Some (key : string) (h : list put_call) (p : put_call) :
  last_put key h = Some p ->
  exists i : nat, h !! i = Some p /\ put_key p = key /\
    forall (j : nat) (q : put_call),
      h !! j = Some q -> put_key q = key -> (j <= i)%nat.
Proof.
  revert p. induction h as [|p0 h IH]; intros p; [discriminate |].
  cbn [last_put]. destruct (last_put key h) as [q0|] eqn:E.
  - intros [= <-]. destruct (IH q0 eq_refl) as (i & Hi & Hk & Hmax).
    exists (S i). split; [exact Hi | split; [exact Hk |]].
    intros [|j] q Hj Hq; [lia |].
    apply le_n_S. exact (Hmax j q Hj Hq).
  - destruct (String.eqb_spec (put_key p0) key) as [Hk|Hk]; [| discriminate].
    intros [= <-]. exists 0%nat. split; [reflexivity | split; [exact Hk |]].
    intros [|j] q Hj Hq; [lia |]. exfalso.
    clear IH. revert j Hj. induction h as [|p1 h IHh]; intros j Hj.
    + destruct j; discriminate.
    + cbn [last_put] in E. destruct (last_put key h) eqn:E'; [discriminate |].
      destruct (String.eqb_spec (put_key p1) key) as [Hk1|Hk1]; [discriminate |].
      destruct j as [|j]; simpl in Hj.
      * injection Hj as <-. contradiction.
      * exact (IHh eq_refl j Hj).
Qed.

Lemma last_put_None (key : string) (h : list put_call) (q : put_call) :
  last_put key h = None -> q ∈ h -> put_key q <> key.
Proof.
  induction h as [|p h IH]; intros E Hq.
  - inversion Hq.
  - cbn [last_put] in E. destruct (last_put key h) eqn:E'; [discriminate |].
    destruct (String.eqb_spec (put_key p) key) as [Hk|Hk]; [discriminate |].
    inversion Hq; subst; [exact Hk | apply IH; [reflexivity | assumption]].
Qed.

(** A read within the timeout of the latest write to the key returns what
    was written. *)
Lemma cache_get_after_puts (h : list put_call) (key : string) (ttl t : Z) (d : json) :
  cache_get (run_puts h ∅) ttl t key = Some d <->
  exists p, last_put key h = Some p /\ put_data p = d /\ t - put_time p < ttl.
Proof.
  unfold cache_get. rewrite run_puts_lookup.
  destruct (last_put key h) as [p|]; cbn.
  - destruct (Z.ltb_spec (t - put_time p) ttl) as [Hlt|Hge]; split.
    + intros [= <-]. exists p. auto.
    + intros (p' & [= <-] & <- & _). reflexivity.
    + discriminate.
    + intros (p' & [= <-] & _ & Hlt). lia.
  - rewrite lookup_empty. split; [discriminate | intros (p & Hp & _); discriminate].
Qed.

Lemma fetchAPI_fresh (env : Env) (endpoint : string) (s : Sys) (d : json) :
  cache_get (cache (self s)) (cacheTimeout (self s)) (now env) endpoint = Some d ->
  fetchAPI env endpoint s = (Return d, s).
Proof. intros H. unfold fetchAPI. rewrite H. reflexivity. Qed.

(** C10: a call of [fetchAPI] that throws leaves the cache as it was; and
    when the entry of the endpoint is missing or stale and the underlying
    fetch fails (the promise rejects or the status is not a success), the call
    throws, having done nothing but issue the request, so that every entry,
    also a stale one of the same endpoint, is still there. *)
Theorem fetchAPI_failure_keeps_cache (env : Env) (endpoint : string) (s : Sys) :
  (forall e, fst (fetchAPI env endpoint s) = Throw e ->
             cache (self (snd (fetchAPI env endpoint s))) = cache (self s)) /\
  (cache_get (cache (self s)) (cacheTimeout (self s)) (now env) endpoint = None ->
   transport_failed (reply (net env (apiUrl (self s) +:+ endpoint))) = true ->
   exists e, fetchAPI env endpoint s =
               (Throw e, emit (HttpGet (apiUrl (self s) +:+ endpoint)) s) /\
             cache (self (snd (fetchAPI env endpoint s))) = cache (self s) /\
             forall key, cache (self (snd (fetchAPI env endpoint s))) !! key
                         = cache (self s) !! key).
Proof.
  split.
  - intros e. unfold fetchAPI.
    destruct (cache_get _ _ _ _); [discriminate |].
    destruct (reply _) as [reason | status statusText text body]; [reflexivity |].
    destruct (negb (ok status)); [reflexivity |].
    destruct body; [discriminate | reflexivity].
  - intros Hmiss Hfail. unfold fetchAPI. rewrite Hmiss.
    destruct (reply _) as [reason | status statusText text body]; cbn in Hfail.
    + eexists. repeat split.
    + rewrite Hfail. eexists. repeat split.
Qed.

Lemma fetchAPI_failure_keeps_cache_witness :
  let s := loaded in
  let env := env_down 6000 in
  cache_get (cache (self s)) 5000 (now env) first_blocks_page = None /\
  (exists e, fst (fetchAPI env first_blocks_page s) = Throw e) /\
  cache (self (snd (fetchAPI env first_blocks_page s))) !! first_blocks_page
    = Some {| data := payload_100; timestamp := 30 |}.
Proof.
  intros s env.
  destruct (fetchAPI_failure_keeps_cache env first_blocks_page s) as [_ H].
  destruct H as (e & He & _ & Hk); [reflexivity | reflexivity |].
  split; [reflexivity | split].
  - exists e. rewrite He. reflexivity.
  - rewrite Hk. reflexivity.
Defined.

(** C5: after any writes made in the order of their times, a read of
    signature [S] at time [t] returns a payload exactly when some write to [S]
    was made less than the timeout (5000 ms) before [t], and the payload is
    the one written last. In the scenario of the first page of blocks written
    at time 0, a read at 4000 returns the payload and a read at 6000 returns
    nothing, so that [fetchAPI] then asks the server again. *)
Theorem cache_get_iff_put_within_ttl :
  (forall (h : list put_call) (S : string) (t : Z),
     chronological h ->
     ((exists d, cache_get (run_puts h ∅) (cacheTimeout (constructor default_config)) t S
                 = Some d) <->
      (exists p, p ∈ h /\ put_key p = S /\ t - put_time p < 5000)) /\
     (forall d, cache_get (run_puts h ∅) 5000 t S = Some d ->
                exists p, last_put S h = Some p /\ put_data p = d)) /\
  (let c := cache_put first_blocks_page payload_100 0 ∅ in
   cache_get c 5000 4000 first_blocks_page = Some payload_100 /\
   cache_get c 5000 6000 first_blocks_page = None) /\
  (let s := with_self (set_cache (cache_put first_blocks_page payload_100 0 ∅))
              (boot default_config) in
   fetchAPI (env_at 4000 payload_101) first_blocks_page s = (Return payload_100, s) /\
   fst (fetchAPI (env_at 6000 payload_101) first_blocks_page s) = Return payload_101 /\
   requested (log (snd (fetchAPI (env_at 6000 payload_101) first_blocks_page s)))
     = ["http://localhost:8000/api/blocks?limit=20&offset=0"]).
Proof.
  split; [| split; [split; reflexivity | repeat split; reflexivity]].
  intros h S t Hchron. cbn [cacheTimeout constructor]. split.
  - split.
    + intros [d Hd]. apply cache_get_after_puts in Hd.
      destruct Hd as (p & Hp & _ & Hlt).
      destruct (last_put_Some _ _ _ Hp) as (i & Hi & Hk & _).
      exists p. split; [| split; assumption].
      apply list_elem_of_lookup. exists i. exact Hi.
    + intros (q & Hq & Hk & Hlt).
      destruct (last_put S h) as [p|] eqn:Hp.
      * exists (put_data p). apply cache_get_after_puts. exists p.
        split; [exact Hp | split; [reflexivity |]].
        destruct (last_put_Some _ _ _ Hp) as (i & Hi & _ & Hmax).
        apply list_elem_of_lookup in Hq. destruct Hq as [j Hj].
        pose proof (Hchron j i q p (Hmax j q Hj Hk) Hj Hi). lia.
      * exfalso. exact (last_put_None _ _ _ Hp Hq Hk).
  - intros d Hd. apply cache_get_after_puts in Hd.
    destruct Hd as (p & Hp & Hdata & _). exists p. split; assumption.
Qed.

Lemma cache_get_iff_put_within_ttl_witness :
  chronological history_sample /\
  (exists d, cache_get (run_puts history_sample ∅) 5000 7000 first_blocks_page = Some d) /\
  ~ (exists p, p ∈ history_sample /\ put_key p = first_blocks_page /\
               9000 - put_time p < 5000).
Proof.
  assert (Hc : chronological history_sample).
  { intros i j p q Hij Hi Hj.
    destruct i as [|[|[|i]]]; destruct j as [|[|[|j]]];
      simpl in Hi, Hj; try discriminate; try lia;
      injection Hi as <-; injection Hj as <-; simpl; lia. }
  destruct cache_get_iff_put_within_ttl as [H _].
  split; [exact Hc | split].
  - apply (proj1 (H history_sample first_blocks_page 7000 Hc)).
    exists {| put_key := first_blocks_page; put_data := payload_101; put_time := 3000 |}.
    split; [| split; [reflexivity | simpl; lia]].
    apply list_elem_of_lookup. exists 2%nat. reflexivity.
  - intros Hex.
    apply (proj1 (H history_sample first_blocks_page 9000 Hc)) in Hex.
    destruct Hex as [d Hd]. vm_compute in Hd. discriminate Hd.
Defined.

End CacheFacts.

(** ** Loaders, pagination and filters *)

Module ViewFacts.
Import Js Explorer Notions MoreNotions.

Lemma touch_emit (e : event) (s : Sys) : emit e s = touch (cache (self s)) [e] s.
Proof. destruct s as [[] ? ? ? ?]. reflexivity. Qed.

Lemma touch_id (s : Sys) : s = touch (cache (self s)) [] s.
Proof. destruct s as [[] ? ? ? ?]. unfold touch. cbn. rewrite app_nil_r. reflexivity. Qed.

Lemma touch_touch (c1 c2 : gmap string CacheEntry) (e1 e2 : list event) (s : Sys) :
  touch c2 e2 (touch c1 e1 s) = touch c2 (e1 ++ e2) s.
Proof. unfold touch. cbn. rewrite app_assoc. reflexivity. Qed.

Lemma touch_put (f : gmap string CacheEntry -> gmap string CacheEntry)
    (c : gmap string CacheEntry) (evs : list event) (s : Sys) :
  with_self (fun a => set_cache (f (cache a)) a) (touch c evs s) = touch (f c) evs s.
Proof. reflexivity. Qed.

Lemma emitted_touch (f : Sys -> Sys) (s s1 : Sys) (c : gmap string CacheEntry)
    (evs : list event) :
  f s = touch c evs s1 -> log s1 = log s -> emitted f s = evs.
Proof.
  intros Hf Hl. unfold emitted. rewrite Hf. cbn. rewrite Hl. apply drop_app_length.
Qed.

Lemma quiet_nil : quiet [].
Proof. repeat split. Qed.

Lemma quiet_app (e1 e2 : list event) : quiet e1 -> quiet e2 -> quiet (e1 ++ e2).
Proof.
  unfold quiet, invoked, reconnections, timers_created.
  intros (H1 & H2 & H3) (H4 & H5 & H6). rewrite !omap_app.
  rewrite H1, H2, H3, H4, H5, H6. repeat split.
Qed.

Lemma quiet_get (url : string) : quiet [HttpGet url].
Proof. repeat split. Qed.

Lemma quiet_rendered (l : loader) (d : json) : quiet [Rendered l d].
Proof. repeat split. Qed.

Lemma quiet_error (l : loader) : quiet [RenderedError l].
Proof. repeat split. Qed.

Create HintDb quiet.
#[local] Hint Resolve quiet_nil quiet_app quiet_get quiet_rendered quiet_error : quiet.

(** The gateway changes nothing but the cache and the trace. *)
Lemma fetchAPI_touch (env : Env) (endpoint : string) (s : Sys) :
  exists c evs, snd (fetchAPI env endpoint s) = touch c evs s /\ quiet evs.
Proof.
  unfold fetchAPI. destruct (cache_get _ _ _ _).
  - exists (cache (self s)), []. split; [apply touch_id | auto with quiet].
  - destruct (reply _) as [reason | status statusText text body].
    + eexists _, _. split; [apply touch_emit | auto with quiet].
    + destruct (negb (ok status)).
      * eexists _, _. split; [apply touch_emit | auto with quiet].
      * destruct body.
        -- eexists _, _. cbn [snd]. rewrite touch_emit, touch_put.
           split; [reflexivity | auto with quiet].
        -- eexists _, _. split; [apply touch_emit | auto with quiet].
Qed.

Lemma finish_touch (l : loader) (env : Env) (endpoint : string) (s : Sys) :
  exists c evs, finish l (fetchAPI env endpoint s) = touch c evs s /\ quiet evs.
Proof.
  destruct (fetchAPI_touch env endpoint s) as (c & evs & Hs & Hq).
  destruct (fetchAPI env endpoint s) as [[d|e] s']; cbn [snd] in Hs; subst s';
    unfold finish; rewrite touch_emit; cbn [self touch cache set_cache];
    eexists _, _; (split; [apply touch_touch | auto with quiet]).
Qed.

Lemma entered_touch (l : loader) (g : Sys -> Sys) (s : Sys) :
  (exists c evs, g (emit (Invoke l) s) = touch c evs (emit (Invoke l) s) /\ quiet evs) ->
  exists c evs, g (emit (Invoke l) s) = touch c (Invoke l :: evs) s /\ quiet evs.
Proof.
  intros (c & evs & Hg & Hq). exists c, evs. split; [| exact Hq].
  rewrite Hg, touch_emit. apply touch_touch.
Qed.

Ltac through_gateway :=
  match goal with
  | |- context [finish ?l (fetchAPI ?env ?ep _)] =>
      apply (entered_touch l (fun s' => finish l (fetchAPI env ep s'))), finish_touch
  end.

Lemma loadBlocks_loads (env : Env) : loads LoadBlocks (loadBlocks env).
Proof. intros s. unfold loadBlocks. through_gateway. Qed.

Lemma loadTransactions_loads (env : Env) : loads LoadTransactions (loadTransactions env).
Proof. intros s. unfold loadTransactions. through_gateway. Qed.

Lemma loadValidators_loads (env : Env) : loads LoadValidators (loadValidators env).
Proof. intros s. unfold loadValidators. through_gateway. Qed.

Lemma loadProposals_loads (env : Env) : loads LoadProposals (loadProposals env).
Proof. intros s. unfold loadProposals. through_gateway. Qed.

Lemma updateQuickStats_loads (env : Env) : loads UpdateQuickStats (updateQuickStats env).
Proof. intros s. unfold updateQuickStats. through_gateway. Qed.

Lemma loadStakingPool_loads (env : Env) : loads LoadStakingPool (loadStakingPool env).
Proof.
  intros s. unfold loadStakingPool.
  apply (entered_touch _ (fun s' =>
    let (poolData, s1) := fetchAPI env "/api/staking/pool" s' in
    let (paramsData, s2) := fetchAPI env "/api/staking/params" s1 in
    match poolData, paramsData with
    | Return d, Return _ => emit (Rendered LoadStakingPool d) s2
    | _, _ => emit (RenderedError LoadStakingPool) s2
    end)).
  set (s0 := emit (Invoke LoadStakingPool) s).
  destruct (fetchAPI_touch env "/api/staking/pool" s0) as (c1 & e1 & H1 & Q1).
  destruct (fetchAPI env "/api/staking/pool" s0) as [r1 s1]. cbn [snd] in H1. subst s1.
  destruct (fetchAPI_touch env "/api/staking/params" (touch c1 e1 s0)) as (c2 & e2 & H2 & Q2).
  destruct (fetchAPI env "/api/staking/params" (touch c1 e1 s0)) as [r2 s2].
  cbn [snd] in H2. subst s2.
  destruct r1, r2; rewrite touch_emit, !touch_touch; cbn [self touch cache set_cache];
    eexists _, _; (split; [reflexivity | auto with quiet]).
Qed.

(** What a loader leaves behind when it runs in a state [s1] that differs
    from [s] in the instance only. *)
Lemma loads_after (l : loader) (f : Sys -> Sys) (g : Sys -> Sys) (s : Sys) :
  loads l f -> log (g s) = log s ->
  exists c evs, f (g s) = touch c (Invoke l :: evs) (g s) /\ quiet evs /\
                emitted (fun s => f (g s)) s = Invoke l :: evs /\
                invoked (emitted (fun s => f (g s)) s) = [l].
Proof.
  intros Hf Hl. destruct (Hf (g s)) as (c & evs & Hs & Hq).
  exists c, evs. split; [exact Hs | split; [exact Hq |]].
  assert (He : emitted (fun s => f (g s)) s = Invoke l :: evs).
  { apply (emitted_touch _ _ (g s) c); assumption. }
  split; [exact He |]. rewrite He. destruct Hq as (Hq & _).
  unfold invoked in *. cbn. rewrite Hq. reflexivity.
Qed.

Lemma emitted_same (f : Sys -> Sys) (s : Sys) : f s = s -> emitted f s = [].
Proof. intros H. unfold emitted. rewrite H. apply drop_all. Qed.

(** One pass of a loader through the gateway: it is entered, asks what
    [fetchAPI] asks for the endpoint, and leaves the cache [fetchAPI]
    leaves. *)
Lemma load_through_gateway (l : loader) (env : Env) (endpoint : string) (s : Sys) :
  exists evs,
    finish l (fetchAPI env endpoint (emit (Invoke l) s))
      = touch (cache (self (snd (fetchAPI env endpoint s)))) (Invoke l :: evs) s /\
    quiet evs /\
    requested evs = requested (gateway_events env endpoint s).
Proof.
  assert (Hstep : forall c evs e, emit e (touch c evs s) = touch c (evs ++ [e]) s).
  { intros c evs e. rewrite touch_emit. cbn [self touch cache set_cache].
    apply touch_touch. }
  unfold fetchAPI, gateway_events, finish. cbn [self emit cache cacheTimeout apiUrl].
  rewrite (touch_emit (Invoke l) s).
  set (url := apiUrl (self s) +:+ endpoint).
  destruct (cache_get _ _ _ _) as [d|].
  - exists [Rendered l d]. split; [| split; [auto with quiet | reflexivity]].
    rewrite Hstep. reflexivity.
  - destruct (reply _) as [reason | status statusText text body];
      [| destruct (negb (ok status)); [| destruct body as [d|]]].
    + exists [HttpGet url; RenderedError l]. split; [| split; [| reflexivity]].
      * rewrite !Hstep. reflexivity.
      * apply (quiet_app [_] [_]); auto with quiet.
    + exists [HttpGet url; RenderedError l]. split; [| split; [| reflexivity]].
      * rewrite !Hstep. reflexivity.
      * apply (quiet_app [_] [_]); auto with quiet.
    + exists [HttpGet url; Rendered l d]. split; [| split; [| reflexivity]].
      * rewrite Hstep, touch_put, Hstep. reflexivity.
      * apply (quiet_app [_] [_]); auto with quiet.
    + exists [HttpGet url; RenderedError l]. split; [| split; [| reflexivity]].
      * rewrite !Hstep. reflexivity.
      * apply (quiet_app [_] [_]); auto with quiet.
Qed.

(** The gateway looks at the instance only through the entry of its
    endpoint, the timeout and the address of the server. *)
Lemma gateway_events_ext (env : Env) (endpoint : string) (s1 s2 : Sys) :
  cache (self s1) !! endpoint = cache (self s2) !! endpoint ->
  cacheTimeout (self s1) = cacheTimeout (self s2) ->
  apiUrl (self s1) = apiUrl (self s2) ->
  gateway_events env endpoint s1 = gateway_events env endpoint s2.
Proof.
  intros Hc Ht Hu. unfold gateway_events, cache_get. rewrite Hc, Ht, Hu. reflexivity.
Qed.

Lemma fetchAPI_cache_ext (env : Env) (endpoint : string) (s1 s2 : Sys) :
  cache (self s1) = cache (self s2) ->
  cacheTimeout (self s1) = cacheTimeout (self s2) ->
  apiUrl (self s1) = apiUrl (self s2) ->
  cache (self (snd (fetchAPI env endpoint s1))) = cache (self (snd (fetchAPI env endpoint s2))).
Proof.
  intros Hc Ht Hu. unfold fetchAPI. rewrite Hc, Ht, Hu.
  destruct (cache_get _ _ _ _); [exact Hc |].
  destruct (reply _) as [reason | status statusText text body]; [exact Hc |].
  destruct (negb (ok status)); [exact Hc |].
  destruct body; [| exact Hc]. cbn. rewrite Hc. reflexivity.
Qed.

(** The gateway writes to the entry of its own endpoint only. *)
Lemma fetchAPI_other_key (env : Env) (endpoint key : string) (s : Sys) :
  key <> endpoint ->
  cache (self (snd (fetchAPI env endpoint s))) !! key = cache (self s) !! key.
Proof.
  intros Hk. unfold fetchAPI.
  destruct (cache_get _ _ _ _); [reflexivity |].
  destruct (reply _) as [reason | status statusText text body]; [reflexivity |].
  destruct (negb (ok status)); [reflexivity |].
  destruct body; [| reflexivity]. cbn. unfold cache_put.
  apply lookup_insert_ne. congruence.
Qed.

Lemma requested_gateway (env : Env) (endpoint : string) (s : Sys) :
  at_most_once (apiUrl (self s) +:+ endpoint) (requested (gateway_events env endpoint s)).
Proof.
  unfold gateway_events. destruct (cache_get _ _ _ _); [left | right]; reflexivity.
Qed.

(** A page change followed by the load: [g] stands for the assignment to
    [this.pagination], [ep] for the endpoint the loader builds. *)
Lemma load_after_update (l : loader) (env : Env) (ep : AuraExplorer -> string)
    (g : AuraExplorer -> AuraExplorer) (s : Sys) :
  cache (g (self s)) = cache (self s) ->
  cacheTimeout (g (self s)) = cacheTimeout (self s) ->
  apiUrl (g (self s)) = apiUrl (self s) ->
  let s1 := with_self g s in
  let f := fun s =>
    finish l (fetchAPI env (ep (self (with_self g s))) (emit (Invoke l) (with_self g s))) in
  exists c evs,
    f s = touch c (Invoke l :: evs) s1 /\
    invoked (emitted f s) = [l] /\
    requested (emitted f s) = requested (gateway_events env (ep (self s1)) s) /\
    c = cache (self (snd (fetchAPI env (ep (self s1)) s))).
Proof.
  intros Hc Ht Hu s1 f.
  destruct (load_through_gateway l env (ep (self s1)) s1) as (evs & Hs & Hq & Hr).
  exists (cache (self (snd (fetchAPI env (ep (self s1)) s1)))), evs.
  assert (He : emitted f s = Invoke l :: evs).
  { apply (emitted_touch f s s1 _ _ Hs). reflexivity. }
  split; [exact Hs | split; [| split]].
  - destruct Hq as (Hi & _). rewrite He. unfold invoked in *. cbn. rewrite Hi. reflexivity.
  - rewrite He. change (requested (Invoke l :: evs)) with (requested evs).
    rewrite Hr. f_equal. apply gateway_events_ext; [cbn; rewrite Hc; reflexivity | exact Ht | exact Hu].
  - apply fetchAPI_cache_ext; assumption.
Qed.

(** The load that follows a page change of the view of [r] to page [n]. *)
Lemma page_change (r : resource) (n : Z) (env : Env) (s : Sys) (f : Env -> Sys -> Sys) :
  f env s = match r with
            | Blocks => loadBlocks
            | Transactions => loadTransactions
            | Proposals => loadProposals
            end env (with_self (on_page r n) s) ->
  page (view r (f env s)) = n /\
  limit (view r (f env s)) = limit (view r s) /\
  filters (self (f env s)) = filters (self s) /\
  invoked (emitted (f env) s) = [loader_of r] /\
  requested (emitted (f env) s)
    = requested (gateway_events env (endpoint_of r (on_page r n (self s))) s) /\
  cache (self (f env s))
    = cache (self (snd (fetchAPI env (endpoint_of r (on_page r n (self s))) s))).
Proof.
  intros Hf. unfold emitted. rewrite Hf. clear Hf f.
  destruct r; cbn [view loader_of endpoint_of].
  - destruct (load_after_update LoadBlocks env blocks_endpoint (on_page Blocks n) s
                eq_refl eq_refl eq_refl) as (c & evs & Hs & Hi & Hr & Hc).
    cbn beta zeta in Hs. repeat split; try exact Hi; try exact Hr.
    all: replace (loadBlocks env (with_self (on_page Blocks n) s))
           with (touch c (Invoke LoadBlocks :: evs) (with_self (on_page Blocks n) s))
           by (symmetry; exact Hs); try reflexivity.
    exact Hc.
  - destruct (load_after_update LoadTransactions env transactions_endpoint
                (on_page Transactions n) s eq_refl eq_refl eq_refl)
      as (c & evs & Hs & Hi & Hr & Hc).
    cbn beta zeta in Hs. repeat split; try exact Hi; try exact Hr.
    all: replace (loadTransactions env (with_self (on_page Transactions n) s))
           with (touch c (Invoke LoadTransactions :: evs)
                   (with_self (on_page Transactions n) s))
           by (symmetry; exact Hs); try reflexivity.
    exact Hc.
  - destruct (load_after_update LoadProposals env proposals_endpoint
                (on_page Proposals n) s eq_refl eq_refl eq_refl)
      as (c & evs & Hs & Hi & Hr & Hc).
    cbn beta zeta in Hs. repeat split; try exact Hi; try exact Hr.
    all: replace (loadProposals env (with_self (on_page Proposals n) s))
           with (touch c (Invoke LoadProposals :: evs)
                   (with_self (on_page Proposals n) s))
           by (symmetry; exact Hs); try reflexivity.
    exact Hc.
Qed.

Lemma nextPage_change (r : resource) (env : Env) (s : Sys) :
  nextPage r env s = match r with
                     | Blocks => loadBlocks
                     | Transactions => loadTransactions
                     | Proposals => loadProposals
                     end env (with_self (on_page r (page (view r s) + 1)) s).
Proof. destruct r; reflexivity. Qed.

Lemma prevPage_change (r : resource) (env : Env) (s : Sys) :
  1 < page (view r s) ->
  prevPage r env s = match r with
                     | Blocks => loadBlocks
                     | Transactions => loadTransactions
                     | Proposals => loadProposals
                     end env (with_self (on_page r (page (view r s) - 1)) s).
Proof.
  intros Hp. apply Z.ltb_lt in Hp.
  destruct r; cbn [prevPage view] in *;
    [unfold prevBlocksPage | unfold prevTxsPage | unfold prevProposalsPage];
    rewrite Hp; reflexivity.
Qed.

(** C6: for each of the three views, [nextPage] adds exactly 1 to the page
    and then runs the loader of the resource once, which goes through the
    gateway for the endpoint of the new page: the request sent is the one
    for that endpoint (none when the cache holds a fresh entry of it), and
    the cache afterwards is the one [fetchAPI] leaves for it. [prevPage] on a
    page above 1 does the same with the page before; on page 1 it changes
    nothing and emits nothing. Neither touches the filters or the limit.
    From page 1, three [nextPage] and one [prevPage] end on page 3. *)
Theorem pagination_steps (r : resource) (env : Env) (s : Sys) :
  (let after := endpoint_of r (on_page r (page (view r s) + 1) (self s)) in
   page (view r (nextPage r env s)) = page (view r s) + 1 /\
   limit (view r (nextPage r env s)) = limit (view r s) /\
   filters (self (nextPage r env s)) = filters (self s) /\
   invoked (emitted (nextPage r env) s) = [loader_of r] /\
   requested (emitted (nextPage r env) s) = requested (gateway_events env after s) /\
   cache (self (nextPage r env s)) = cache (self (snd (fetchAPI env after s)))) /\
  (1 < page (view r s) ->
   let before := endpoint_of r (on_page r (page (view r s) - 1) (self s)) in
   page (view r (prevPage r env s)) = page (view r s) - 1 /\
   limit (view r (prevPage r env s)) = limit (view r s) /\
   filters (self (prevPage r env s)) = filters (self s) /\
   invoked (emitted (prevPage r env) s) = [loader_of r] /\
   requested (emitted (prevPage r env) s) = requested (gateway_events env before s) /\
   cache (self (prevPage r env s)) = cache (self (snd (fetchAPI env before s)))) /\
  (page (view r s) = 1 ->
   prevPage r env s = s /\ emitted (prevPage r env) s = []) /\
  (page (view r s) = 1 ->
   forall e1 e2 e3 e4,
     page (view r (prevPage r e4 (nextPage r e3 (nextPage r e2 (nextPage r e1 s))))) = 3).
Proof.
  assert (Hnext : forall env s, page (view r (nextPage r env s)) = page (view r s) + 1).
  { intros env' s'. apply (page_change r _ env' s' (nextPage r)), nextPage_change. }
  assert (Hprev : forall env s, 1 < page (view r s) ->
            page (view r (prevPage r env s)) = page (view r s) - 1).
  { intros env' s' Hp. apply (page_change r _ env' s' (prevPage r)), prevPage_change, Hp. }
  split; [| split; [| split]].
  - apply (page_change r _ env s (nextPage r)), nextPage_change.
  - intros Hp. apply (page_change r _ env s (prevPage r)), prevPage_change, Hp.
  - intros Hp.
    assert (Hs : prevPage r env s = s).
    { destruct r; cbn [prevPage view] in *;
        [unfold prevBlocksPage | unfold prevTxsPage | unfold prevProposalsPage];
        rewrite Hp; reflexivity. }
    split; [exact Hs | apply emitted_same, Hs].
  - intros Hp e1 e2 e3 e4.
    pose proof (Hnext e1 s) as H1.
    pose proof (Hnext e2 (nextPage r e1 s)) as H2.
    pose proof (Hnext e3 (nextPage r e2 (nextPage r e1 s))) as H3.
    rewrite Hprev; lia.
Qed.

Lemma pagination_steps_witness :
  page (view Blocks (prevPage Blocks (env_at 40 payload_100)
         (nextPage Blocks (env_at 30 payload_100)
           (nextPage Blocks (env_at 20 payload_100)
             (nextPage Blocks (env_at 10 payload_100) loaded))))) = 3 /\
  prevPage Transactions (env_at 10 payload_100) loaded = loaded /\
  page (view Proposals (prevPage Proposals (env_at 20 payload_100)
         (nextPage Proposals (env_at 10 payload_100) loaded))) = 1 /\
  requested (emitted (nextPage Blocks (env_at 10 payload_100)) loaded)
    = ["http://localhost:8000/api/blocks?limit=20&offset=20"] /\
  requested (emitted (prevPage Blocks (env_at 20 payload_100))
               (nextPage Blocks (env_at 10 payload_100) loaded)) = [] /\
  requested (emitted (prevPage Blocks (env_at 6000 payload_100))
               (nextPage Blocks (env_at 10 payload_100) loaded))
    = ["http://localhost:8000/api/blocks?limit=20&offset=0"].
Proof.
  split; [| split; [| split; [| split; [| split]]]].
  - destruct (pagination_steps Blocks (env_at 10 payload_100) loaded) as (_ & _ & _ & H).
    apply H. reflexivity.
  - destruct (pagination_steps Transactions (env_at 10 payload_100) loaded)
      as (_ & _ & H & _).
    apply H. reflexivity.
  - destruct (pagination_steps Proposals (env_at 20 payload_100)
                (nextPage Proposals (env_at 10 payload_100) loaded)) as (_ & H & _ & _).
    destruct H as (H & _); [vm_compute; reflexivity |].
    rewrite H. reflexivity.
  - destruct (pagination_steps Blocks (env_at 10 payload_100) loaded)
      as ((_ & _ & _ & _ & H & _) & _).
    rewrite H. vm_compute. reflexivity.
  - destruct (pagination_steps Blocks (env_at 20 payload_100)
                (nextPage Blocks (env_at 10 payload_100) loaded)) as (_ & H & _ & _).
    destruct H as (_ & _ & _ & _ & H & _); [vm_compute; reflexivity |].
    rewrite H. vm_compute. reflexivity.
  - destruct (pagination_steps Blocks (env_at 6000 payload_100)
                (nextPage Blocks (env_at 10 payload_100) loaded)) as (_ & H & _ & _).
    destruct H as (_ & _ & _ & _ & H & _); [vm_compute; reflexivity |].
    rewrite H. vm_compute. reflexivity.
Defined.

Lemma invoked_cons (l : loader) (evs : list event) :
  invoked (Invoke l :: evs) = l :: invoked evs.
Proof. reflexivity. Qed.

Lemma invoked_app (e1 e2 : list event) :
  invoked (e1 ++ e2) = (invoked e1 ++ invoked e2)%list.
Proof. apply omap_app. Qed.

Lemma invoked_quiet (evs : list event) : quiet evs -> invoked evs = [].
Proof. intros (H & _). exact H. Qed.

(** The filter controls of the transactions leave the page where it is; the
    one of the proposals puts it back to 1. Each stores the value, [null] for
    the empty string, and enters the loader once. *)
Lemma tx_filter_changes (env : Env) (value : string) (s : Sys) :
  (page (view Transactions (onTxTypeFilterChange env value s)) = page (view Transactions s) /\
   txType (filters (self (onTxTypeFilterChange env value s))) = or_null value /\
   invoked (emitted (onTxTypeFilterChange env value) s) = [LoadTransactions]) /\
  (page (view Transactions (onTxStatusFilterChange env value s)) = page (view Transactions s) /\
   txStatus (filters (self (onTxStatusFilterChange env value s))) = or_null value /\
   invoked (emitted (onTxStatusFilterChange env value) s) = [LoadTransactions]).
Proof.
  split.
  - unfold onTxTypeFilterChange, emitted. unfold onTxTypeFilterChange.
    match goal with |- context [loadTransactions env (with_self ?g s)] =>
      destruct (loads_after _ _ (with_self g) s (loadTransactions_loads env) eq_refl)
        as (c & evs & Hs & _ & _ & Hi) end.
    rewrite Hs. repeat split. rewrite <- Hs. exact Hi.
  - unfold onTxStatusFilterChange, emitted. unfold onTxStatusFilterChange.
    match goal with |- context [loadTransactions env (with_self ?g s)] =>
      destruct (loads_after _ _ (with_self g) s (loadTransactions_loads env) eq_refl)
        as (c & evs & Hs & _ & _ & Hi) end.
    rewrite Hs. repeat split. rewrite <- Hs. exact Hi.
Qed.

(** X12: The filter control of the proposals stores the value, [null] for the
    empty string, puts the page of the proposals back to 1 and enters their
    loader once. *)
Lemma proposal_filter_change (env : Env) (value : string) (s : Sys) :
  page (view Proposals (onProposalStatusFilterChange env value s)) = 1 /\
  proposalStatus (filters (self (onProposalStatusFilterChange env value s))) = or_null value /\
  invoked (emitted (onProposalStatusFilterChange env value) s) = [LoadProposals].
Proof.
  unfold onProposalStatusFilterChange, emitted. unfold onProposalStatusFilterChange.
  cbn zeta.
  match goal with |- context [loadProposals env (with_self ?g (with_self ?g' s))] =>
    destruct (loads_after _ _ (fun s => with_self g (with_self g' s)) s
                (loadProposals_loads env) eq_refl)
      as (c & evs & Hs & _ & _ & Hi) end.
  cbn beta in Hs. rewrite Hs. repeat split. rewrite <- Hs. exact Hi.
Qed.

(** C2 at its failing input: with the transactions on page 3, choosing the
    type filter [send] stores the filter and asks for the transactions again,
    but the page is still 3 (the request has offset 40); the same holds for
    the status filter. The sibling control of the proposals, from page 3,
    does put the page back to 1. *)
Theorem tx_filter_change_keeps_page :
  let s := run [(env_at 10 payload_100, ClickNextTxs);
                (env_at 20 payload_100, ClickNextTxs);
                (env_at 30 payload_100, ClickNextProposals);
                (env_at 40 payload_100, ClickNextProposals)] loaded in
  page (view Transactions s) = 3 /\
  page (view Proposals s) = 3 /\
  (let s' := dispatch (env_at 50 payload_100) (ChangeTxTypeFilter "send") s in
   page (view Transactions s') = 3 /\
   txType (filters (self s')) = Some "send" /\
   requested (emitted (dispatch (env_at 50 payload_100) (ChangeTxTypeFilter "send")) s)
     = ["http://localhost:8000/api/transactions?limit=20&offset=40&type=send"]) /\
  (let s' := dispatch (env_at 50 payload_100) (ChangeTxStatusFilter "success") s in
   page (view Transactions s') = 3 /\
   txStatus (filters (self s')) = Some "success") /\
  (let s' := dispatch (env_at 50 payload_100) (ChangeProposalStatusFilter "Voting") s in
   page (view Proposals s') = 1 /\
   proposalStatus (filters (self s')) = Some "Voting").
Proof. vm_compute. repeat split. Qed.

Lemma requested_app (e1 e2 : list event) :
  requested (e1 ++ e2) = (requested e1 ++ requested e2)%list.
Proof. apply omap_app. Qed.

Lemma handleNewBlock_first (env : Env) (blockData : json) (s : Sys) :
  page (blocks (pagination (self s))) = 1 ->
  let s1 := with_self (fun a => set_cache (delete "blocks" (cache a)) a) s in
  exists c e1 e2, quiet e1 /\ quiet e2 /\
    handleNewBlock env blockData s =
      touch c ((Invoke LoadBlocks :: e1) ++ Invoke UpdateQuickStats :: e2) s1 /\
    emitted (loadBlocks env) s1 = Invoke LoadBlocks :: e1 /\
    emitted (updateQuickStats env) (loadBlocks env s1) = Invoke UpdateQuickStats :: e2 /\
    apiUrl (self (loadBlocks env s1)) = apiUrl (self s).
Proof.
  intros Hp s1. unfold handleNewBlock. fold s1.
  change (page (blocks (pagination (self s1)))) with (page (blocks (pagination (self s)))).
  rewrite Hp. cbn [Z.eqb Pos.eqb].
  destruct (loadBlocks_loads env s1) as (c1 & e1 & H1 & Q1).
  destruct (updateQuickStats_loads env (loadBlocks env s1)) as (c2 & e2 & H2 & Q2).
  exists c2, e1, e2. split; [exact Q1 | split; [exact Q2 |]].
  split; [| split; [| split]].
  - rewrite H2, H1. apply touch_touch.
  - exact (emitted_touch _ _ _ _ _ H1 eq_refl).
  - exact (emitted_touch _ _ _ _ _ H2 eq_refl).
  - rewrite H1. reflexivity.
Qed.

Lemma handleNewBlock_later (env : Env) (blockData : json) (s : Sys) :
  page (blocks (pagination (self s))) <> 1 ->
  let s1 := with_self (fun a => set_cache (delete "blocks" (cache a)) a) s in
  exists c e2, quiet e2 /\
    handleNewBlock env blockData s = touch c (Invoke UpdateQuickStats :: e2) s1 /\
    emitted (updateQuickStats env) s1 = Invoke UpdateQuickStats :: e2.
Proof.
  intros Hp s1. unfold handleNewBlock. fold s1.
  change (page (blocks (pagination (self s1)))) with (page (blocks (pagination (self s)))).
  apply Z.eqb_neq in Hp. rewrite Hp.
  destruct (updateQuickStats_loads env s1) as (c2 & e2 & H2 & Q2).
  exists c2, e2. split; [exact Q2 | split; [exact H2 |]].
  exact (emitted_touch _ _ _ _ _ H2 eq_refl).
Qed.

Lemma stats_is_another_url (a : AuraExplorer) :
  apiUrl a +:+ blocks_endpoint a <> apiUrl a +:+ "/api/stats" /\
  blocks_endpoint a <> "/api/stats" /\ blocks_endpoint a <> "blocks".
Proof.
  assert (H : blocks_endpoint a <> "/api/stats") by (unfold blocks_endpoint; cbn; discriminate).
  split; [| split; [exact H | unfold blocks_endpoint; cbn; discriminate]].
  intros E. apply H. revert E. generalize (blocks_endpoint a).
  induction (apiUrl a) as [|c u IH]; cbn; intros b E; [exact E |].
  injection E as E. exact (IH b E).
Qed.

(** The loads of [handleNewBlock]: each is one pass through the gateway,
    and what the gateway finds in the cache for the two endpoints is what
    was there when the message came. *)
Lemma handleNewBlock_requests (env : Env) (blockData : json) (s : Sys) :
  requested (emitted (handleNewBlock env blockData) s) =
    ((if page (blocks (pagination (self s))) =? 1
      then requested (gateway_events env (blocks_endpoint (self s)) s) else [])
     ++ requested (gateway_events env "/api/stats" s))%list.
Proof.
  set (s1 := with_self (fun a => set_cache (delete "blocks" (cache a)) a) s).
  destruct (stats_is_another_url (self s)) as (_ & Hne & Hnb).
  assert (Hb : gateway_events env (blocks_endpoint (self s)) s1
               = gateway_events env (blocks_endpoint (self s)) s).
  { apply gateway_events_ext; try reflexivity.
    cbn. apply lookup_delete_ne. congruence. }
  assert (Hst : forall s2, cache (self s2) !! "/api/stats" = cache (self s1) !! "/api/stats" ->
             cacheTimeout (self s2) = cacheTimeout (self s) ->
             apiUrl (self s2) = apiUrl (self s) ->
             gateway_events env "/api/stats" s2 = gateway_events env "/api/stats" s).
  { intros s2 Hc Ht Hu. apply gateway_events_ext; [| exact Ht | exact Hu].
    rewrite Hc. cbn. apply lookup_delete_ne. discriminate. }
  unfold emitted, handleNewBlock. cbn beta zeta. fold s1.
  change (page (blocks (pagination (self s1)))) with (page (blocks (pagination (self s)))).
  destruct (page (blocks (pagination (self s))) =? 1).
  - destruct (load_through_gateway LoadBlocks env (blocks_endpoint (self s1)) s1)
      as (e1 & H1 & _ & R1).
    change (finish LoadBlocks _) with (loadBlocks env s1) in H1.
    set (s2 := loadBlocks env s1) in *.
    destruct (load_through_gateway UpdateQuickStats env "/api/stats" s2)
      as (e2 & H2 & _ & R2).
    change (finish UpdateQuickStats _) with (updateQuickStats env s2) in H2.
    rewrite H2, H1, touch_touch. cbn [log touch].
    change (log s1) with (log s). rewrite drop_app_length, requested_app.
    change (requested (Invoke LoadBlocks :: e1)) with (requested e1).
    change (requested (Invoke UpdateQuickStats :: e2)) with (requested e2).
    rewrite R1, R2. change (blocks_endpoint (self s1)) with (blocks_endpoint (self s)).
    rewrite Hb. f_equal. f_equal. apply Hst.
    + rewrite H1. cbn [self touch cache set_cache]. apply fetchAPI_other_key.
      intros E. apply Hne. symmetry. exact E.
    + rewrite H1. reflexivity.
    + rewrite H1. reflexivity.
  - destruct (load_through_gateway UpdateQuickStats env "/api/stats" s1)
      as (e2 & H2 & _ & R2).
    change (finish UpdateQuickStats _) with (updateQuickStats env s1) in H2.
    rewrite H2. cbn [log touch].
    change (log s1) with (log s). rewrite drop_app_length.
    change (requested (Invoke UpdateQuickStats :: e2)) with (requested e2).
    rewrite R2. cbn [app]. f_equal. apply Hst; reflexivity.
Qed.

(** C7: a [new_block] message with the blocks on page 1 runs the loader of
    the blocks once and then the loader of the statistics once; each is one
    pass through [fetchAPI], for the endpoint of the first page of blocks and
    for [/api/stats], which sends one request for its endpoint unless the
    cache holds an entry of that endpoint younger than the timeout. So with no
    such entries exactly two requests go out, one for the blocks and one for
    the statistics. On any other page the loader of the blocks is not run and
    nothing is asked about the blocks; the statistics are loaded as before.
    The views stay as they are. *)
Theorem new_block_refetches (env : Env) (blockData : json) (s : Sys) :
  let handler := dispatch env
    (SocketMessage (Some {| msg_type := "new_block"; msg_data := blockData |})) in
  let fresh := cache_get (cache (self s)) (cacheTimeout (self s)) (now env) in
  let blocks_url := apiUrl (self s) +:+ blocks_endpoint (self s) in
  let stats_url := apiUrl (self s) +:+ "/api/stats" in
  (page (view Blocks s) = 1 ->
   invoked (emitted handler s) = [LoadBlocks; UpdateQuickStats] /\
   requested (emitted handler s) =
     (requested (gateway_events env (blocks_endpoint (self s)) s)
      ++ requested (gateway_events env "/api/stats" s))%list /\
   (fresh (blocks_endpoint (self s)) = None -> fresh "/api/stats" = None ->
    requested (emitted handler s) = [blocks_url; stats_url]) /\
   (fresh (blocks_endpoint (self s)) = None ->
    exists rs, requested (emitted handler s) = blocks_url :: rs /\
               at_most_once stats_url rs)) /\
  (page (view Blocks s) <> 1 ->
   invoked (emitted handler s) = [UpdateQuickStats] /\
   requested (emitted handler s) = requested (gateway_events env "/api/stats" s) /\
   blocks_url ∉ requested (emitted handler s)) /\
  (forall r, view r (handler s) = view r s).
Proof.
  cbn zeta.
  assert (Hd : dispatch env
      (SocketMessage (Some {| msg_type := "new_block"; msg_data := blockData |}))
      = handleNewBlock env blockData) by reflexivity.
  rewrite Hd. cbn [view]. rewrite (handleNewBlock_requests env blockData s).
  split; [| split].
  - intros Hp. rewrite Hp. cbn [Z.eqb Pos.eqb].
    destruct (handleNewBlock_first env blockData s Hp)
      as (c & e1 & e2 & Q1 & Q2 & Hs & _).
    rewrite (emitted_touch _ _ _ _ _ Hs eq_refl).
    split; [| split; [reflexivity | split]].
    + rewrite invoked_app, !invoked_cons, (invoked_quiet _ Q1), (invoked_quiet _ Q2).
      reflexivity.
    + intros Hb Hq. unfold gateway_events. rewrite Hb, Hq. reflexivity.
    + intros Hb. exists (requested (gateway_events env "/api/stats" s)).
      split; [| apply requested_gateway].
      unfold gateway_events at 1. rewrite Hb. reflexivity.
  - intros Hp.
    destruct (handleNewBlock_later env blockData s Hp) as (c & e2 & Q2 & Hs & _).
    rewrite (emitted_touch _ _ _ _ _ Hs eq_refl).
    apply Z.eqb_neq in Hp. rewrite Hp. cbn [app].
    split; [| split; [reflexivity |]].
    + rewrite invoked_cons, (invoked_quiet _ Q2). reflexivity.
    + destruct (stats_is_another_url (self s)) as (Hu & _).
      destruct (requested_gateway env "/api/stats" s) as [-> | ->].
      * apply not_elem_of_nil.
      * intros H. apply list_elem_of_singleton in H. contradiction.
  - intros r.
    destruct (Z.eq_dec (page (blocks (pagination (self s)))) 1) as [Hp|Hp].
    + destruct (handleNewBlock_first env blockData s Hp) as (c & e1 & e2 & _ & _ & -> & _).
      destruct r; reflexivity.
    + destruct (handleNewBlock_later env blockData s Hp) as (c & e2 & _ & -> & _).
      destruct r; reflexivity.
Qed.

Lemma new_block_refetches_witness :
  let message := SocketMessage (Some new_block_101) in
  let later := nextBlocksPage (env_at 500 payload_100) loaded in
  invoked (emitted (dispatch (env_at 6000 payload_101) message) loaded)
    = [LoadBlocks; UpdateQuickStats] /\
  requested (emitted (dispatch (env_at 6000 payload_101) message) loaded)
    = ["http://localhost:8000/api/blocks?limit=20&offset=0";
       "http://localhost:8000/api/stats"] /\
  invoked (emitted (dispatch (env_at 6000 payload_101) message) later)
    = [UpdateQuickStats] /\
  requested (emitted (dispatch (env_at 6000 payload_101) message) later)
    = ["http://localhost:8000/api/stats"].
Proof.
  cbn zeta.
  destruct (new_block_refetches (env_at 6000 payload_101) (msg_data new_block_101) loaded)
    as (H & _ & _).
  destruct H as (H1 & _ & H2 & _); [reflexivity |].
  destruct (new_block_refetches (env_at 6000 payload_101) (msg_data new_block_101)
              (nextBlocksPage (env_at 500 payload_100) loaded)) as (_ & H & _).
  destruct H as (H3 & H4 & _); [vm_compute; discriminate |].
  split; [exact H1 | split; [| split; [exact H3 |]]].
  - apply H2; vm_compute; reflexivity.
  - etransitivity; [exact H4 | vm_compute; reflexivity].
Defined.

(** The deletion in [handleNewBlock] and [handleNewTransaction] reaches no
    entry stored under another key, and the keys the loaders store under are
    their endpoints. *)
Lemma invalidation_misses_endpoints (a : AuraExplorer) (name key : string) :
  key <> name -> delete name (cache a) !! key = cache a !! key.
Proof. intros H. apply lookup_delete_ne. congruence. Qed.

Lemma endpoints_are_not_resource_names (a : AuraExplorer) :
  blocks_endpoint a <> "blocks" /\ transactions_endpoint a <> "transactions".
Proof.
  split.
  - unfold blocks_endpoint. cbn. discriminate.
  - unfold transactions_endpoint. cbn.
    destruct (truthy (txType (filters a))), (truthy (txStatus (filters a)));
      cbn; discriminate.
Qed.

(** C1 at its failing input: the first page of blocks was cached at time 30;
    a [new_block] message arrives at time 1000 while the view is on page 1.
    After the message the cached page is still returned by the read, and the
    loader it triggers is served from the cache: no request for the blocks
    (nor for the statistics) is made and the page with block 100 is shown
    again, although the server now knows block 101. *)
Theorem new_block_keeps_cached_blocks_page :
  let env := env_at 1000 payload_101 in
  let handler := dispatch env (SocketMessage (Some new_block_101)) in
  cache (self loaded) !! first_blocks_page
    = Some {| data := payload_100; timestamp := 30 |} /\
  cache (self (handler loaded)) !! first_blocks_page
    = Some {| data := payload_100; timestamp := 30 |} /\
  cache_get (cache (self (handler loaded))) 5000 1000 first_blocks_page
    = Some payload_100 /\
  emitted handler loaded
    = [Invoke LoadBlocks; Rendered LoadBlocks payload_100;
       Invoke UpdateQuickStats; Rendered UpdateQuickStats payload_100] /\
  requested (emitted handler loaded) = [].
Proof. vm_compute. repeat split. Qed.

End ViewFacts.

(** ** Poll scheduler and push channel *)

Module SessionFacts.
Import Js Explorer Notions ViewFacts.

Ltac expose_loaders :=
  repeat first
    [ match goal with
      | |- context [loadBlocks ?env ?s] =>
          destruct (loadBlocks_loads env s) as (? & ? & -> & _)
      | |- context [loadTransactions ?env ?s] =>
          destruct (loadTransactions_loads env s) as (? & ? & -> & _)
      | |- context [loadValidators ?env ?s] =>
          destruct (loadValidators_loads env s) as (? & ? & -> & _)
      | |- context [loadProposals ?env ?s] =>
          destruct (loadProposals_loads env s) as (? & ? & -> & _)
      | |- context [loadStakingPool ?env ?s] =>
          destruct (loadStakingPool_loads env s) as (? & ? & -> & _)
      | |- context [updateQuickStats ?env ?s] =>
          destruct (updateQuickStats_loads env s) as (? & ? & -> & _)
      end
    | match goal with
      | |- context [if ?b then _ else _] => destruct b eqn:?
      end ].

(** Every handler keeps the timers in step with the handle the instance
    holds, and every view on a page from 1 on. *)
Lemma dispatch_inv (env : Env) (i : input) (s : Sys) :
  timer_inv s /\ pages_inv s ->
  timer_inv (dispatch env i s) /\ pages_inv (dispatch env i s).
Proof.
  intros [Ht Hp]. unfold timer_inv, pages_inv in *.
  pose proof (Hp Blocks) as Hb. pose proof (Hp Transactions) as Hx.
  pose proof (Hp Proposals) as Hr. cbn [view] in Hb, Hx, Hr.
  destruct i; cbn [dispatch];
    unfold init, loadInitialData, prevBlocksPage, nextBlocksPage, prevTxsPage,
      nextTxsPage, prevProposalsPage, nextProposalsPage, onTxTypeFilterChange,
      onTxStatusFilterChange, onProposalStatusFilterChange, onAutoRefreshChange,
      refreshTick, initWebSocket, onopen, onmessage, handleWSMessage,
      handleNewBlock, handleNewTransaction, onerror, onclose,
      startAutoRefresh, stopAutoRefresh;
    try destruct parsed as [message|];
    try destruct checked;
    cbn [autoRefresh self with_self set_autoRefresh refreshInterval];
    try (destruct (refreshInterval (self s)) as [h|] eqn:Hh; cbn iota in Ht);
    expose_loaders;
    (split;
      [ cbn in *; rewrite ?Hh, ?Ht;
        first [ reflexivity | congruence
              | apply union_empty_r_L | apply difference_diag_L ]
      | intros r; destruct r; cbn; lia ]).
Qed.

Lemma boot_inv (config : Config) : timer_inv (boot config) /\ pages_inv (boot config).
Proof. split; [reflexivity | intros r; destruct r; cbn; lia]. Qed.

Lemma run_inv (inputs : list (Env * input)) (s : Sys) :
  timer_inv s /\ pages_inv s -> timer_inv (run inputs s) /\ pages_inv (run inputs s).
Proof.
  revert s. induction inputs as [|[env i] rest IH]; intros s H; [exact H |].
  cbn [run]. apply IH, dispatch_inv, H.
Qed.

(** C9: in every state the session reaches, starting the scheduler while it
    runs changes nothing, so that starting twice is starting once and leaves
    exactly one active timer; stopping clears the handle and leaves no active
    timer, and a start after it creates exactly one timer, the only active
    one, whose handle the instance holds. *)
Theorem poll_scheduler_start_stop (config : Config) (inputs : list (Env * input)) :
  let s := run inputs (boot config) in
  (is_Some (refreshInterval (self s)) ->
   startAutoRefresh s = s /\ emitted startAutoRefresh s = []) /\
  startAutoRefresh (startAutoRefresh s) = startAutoRefresh s /\
  size (intervals (startAutoRefresh (startAutoRefresh s))) = 1%nat /\
  refreshInterval (self (stopAutoRefresh s)) = None /\
  intervals (stopAutoRefresh s) = ∅ /\
  timers_created (emitted startAutoRefresh (stopAutoRefresh s)) = [next_handle s] /\
  intervals (startAutoRefresh (stopAutoRefresh s)) = {[next_handle s]} /\
  refreshInterval (self (startAutoRefresh (stopAutoRefresh s))) = Some (next_handle s).
Proof.
  intros s.
  destruct (run_inv inputs (boot config) (boot_inv config)) as [Ht _].
  fold s in Ht. clearbody s. unfold timer_inv in Ht.
  assert (Hrun : forall s0, is_Some (refreshInterval (self s0)) -> startAutoRefresh s0 = s0).
  { intros s0 [h Hh]. unfold startAutoRefresh. rewrite Hh. reflexivity. }
  assert (Hstarted : is_Some (refreshInterval (self (startAutoRefresh s)))).
  { unfold startAutoRefresh. destruct (refreshInterval (self s)) eqn:Hh.
    - rewrite Hh. eauto.
    - cbn. eauto. }
  split; [| split; [| split]].
  - intros Hs. split; [exact (Hrun s Hs) | apply emitted_same, (Hrun s Hs)].
  - exact (Hrun _ Hstarted).
  - rewrite (Hrun _ Hstarted). unfold startAutoRefresh.
    destruct (refreshInterval (self s)) eqn:Hh.
    + rewrite Ht. apply size_singleton.
    + cbn. rewrite Ht, union_empty_r_L. apply size_singleton.
  - unfold stopAutoRefresh, startAutoRefresh, emitted.
    unfold stopAutoRefresh.
    destruct (refreshInterval (self s)) as [h|] eqn:Hh; cbn; rewrite ?Hh; cbn.
    + rewrite Ht, difference_diag_L, union_empty_r_L, drop_app_length. repeat split.
    + rewrite Ht, union_empty_r_L, drop_app_length. repeat split.
Qed.

Lemma poll_scheduler_start_stop_witness :
  startAutoRefresh loaded = loaded /\
  intervals (startAutoRefresh (stopAutoRefresh loaded)) = {[2%positive]}.
Proof.
  destruct (poll_scheduler_start_stop default_config [(env_at 0 payload_100, Init)])
    as (H & _ & _ & _ & _ & _ & Hi & _).
  split; [apply H; vm_compute; eauto | exact Hi].
Defined.

(** What each handler of the socket does. *)
Lemma channel_handlers (env : Env) (s : Sys) :
  (channel (onopen s) = Connected /\
   emitted onopen s = [WsSend (Subscribe "blocks"); WsSend (Subscribe "transactions")]) /\
  (channel (onclose s) = Disconnected /\
   emitted onclose s = [SetTimeoutInitWebSocket 5000]) /\
  (channel (onerror s) = Errored /\ emitted onerror s = []) /\
  (ws_constructs env = false ->
   channel (initWebSocket env s) = Errored /\ emitted (initWebSocket env) s = []) /\
  (ws_constructs env = true ->
   channel (initWebSocket env s) = channel s /\
   emitted (initWebSocket env) s = [NewWebSocket (wsUrl (self s))]).
Proof.
  unfold emitted, onopen, onclose, onerror, initWebSocket.
  split; [| split; [| split; [| split]]]; try (intros Hw; rewrite Hw);
    (split; cbn; rewrite <- ?app_assoc, ?drop_app_length, ?drop_all; reflexivity).
Qed.

(** C8, as stated, fails for the transition to [Errored]: the [error]
    handler of the socket only shows the error, it schedules no reconnection
    attempt; nor does [initWebSocket] when the socket cannot be constructed,
    so that a session whose [init] runs into this shows the error and never
    tries again. *)
Lemma error_schedules_no_reconnection :
  channel (dispatch (env_at 1000 payload_100) SocketError loaded) = Errored /\
  reconnections (emitted (dispatch (env_at 1000 payload_100) SocketError) loaded) = [] /\
  length (reconnections (emitted (dispatch (env_at 1000 payload_100) SocketError) loaded))
    <> 1%nat /\
  channel (run [(no_socket_at 0, Init)] (boot default_config)) = Errored /\
  reconnections (log (run [(no_socket_at 0, Init)] (boot default_config))) = [].
Proof. vm_compute. repeat split. discriminate. Qed.

(** C8, amended: the transition to [Disconnected] (the [close] event)
    schedules exactly one reconnection attempt, 5000 ms later, and when it is
    due the socket is opened anew; every entry into [Connected] (the [open]
    event) sends the two subscriptions, [blocks] then [transactions], and
    nothing else, within the handler. The transition to [Errored] schedules
    nothing by itself. *)
Theorem channel_reconnection (env : Env) (s : Sys) :
  (channel (dispatch env SocketClose s) = Disconnected /\
   reconnections (emitted (dispatch env SocketClose) s) = [5000]) /\
  (ws_constructs env = true ->
   emitted (dispatch env ReconnectDue) s = [NewWebSocket (wsUrl (self s))]) /\
  (channel (dispatch env SocketOpen s) = Connected /\
   emitted (dispatch env SocketOpen) s
     = [WsSend (Subscribe "blocks"); WsSend (Subscribe "transactions")]) /\
  (channel (dispatch env SocketError s) = Errored /\
   emitted (dispatch env SocketError) s = []).
Proof.
  destruct (channel_handlers env s) as ((Ho & Eo) & (Hc & Ec) & (He & Ee) & _ & Hi).
  unfold emitted in *. cbn [dispatch]. split; [| split; [| split]].
  - split; [exact Hc | rewrite Ec; reflexivity].
  - intros Hw. exact (proj2 (Hi Hw)).
  - split; assumption.
  - split; assumption.
Qed.

Lemma channel_reconnection_witness :
  emitted (dispatch (env_at 6000 payload_100) ReconnectDue)
          (dispatch (env_at 1000 payload_100) SocketClose loaded)
    = [NewWebSocket "ws://localhost:8000/ws"].
Proof.
  destruct (channel_reconnection (env_at 6000 payload_100)
              (dispatch (env_at 1000 payload_100) SocketClose loaded)) as (_ & H & _).
  apply H. reflexivity.
Defined.

End SessionFacts.

(** * Further properties *)

(** ** The search resolver: canonical hashes and outcomes *)

Module ResolverFacts.
Import Js Aura Notions MoreNotions JsFacts AuraFacts.

Lemma upper_char_hex_bool (c : ascii) :
  is_hex c = true ->
  is_hex (upper_char c) = true /\
  bool_decide (upper_char c ∈ upper_hex_digits) = true /\
  upper_char (upper_char c) = upper_char c /\
  is_hex (lower_char c) = true /\ upper_char (lower_char c) = upper_char c /\
  Ascii.eqb c "x" = false /\ Ascii.eqb c "X" = false.
Proof.
  destruct c as [[] [] [] [] [] [] [] []]; vm_compute; intros H;
    first [ discriminate H | repeat split ].
Qed.

Lemma upper_char_hex (c : ascii) :
  is_hex c = true ->
  is_hex (upper_char c) = true /\ upper_char c ∈ upper_hex_digits /\
  upper_char (upper_char c) = upper_char c /\
  is_hex (lower_char c) = true /\ upper_char (lower_char c) = upper_char c /\
  c <> "x"%char /\ c <> "X"%char.
Proof.
  intros H. destruct (upper_char_hex_bool c H) as (H1 & H2 & H3 & H4 & H5 & H6 & H7).
  repeat split; try assumption.
  - apply bool_decide_eq_true in H2. exact H2.
  - apply Ascii.eqb_neq, H6.
  - apply Ascii.eqb_neq, H7.
Qed.

Lemma length_map_chars (f : ascii -> ascii) (s : string) :
  String.length (map_chars f s) = String.length s.
Proof. induction s as [|c s IH]; simpl; congruence. Qed.

Lemma all_hex_upper (s : string) :
  all_chars is_hex s = true ->
  all_chars is_hex (toUpperCase s) = true /\
  Forall (fun c => c ∈ upper_hex_digits) (list_ascii_of_string (toUpperCase s)) /\
  toUpperCase (toUpperCase s) = toUpperCase s /\
  all_chars is_hex (toLowerCase s) = true /\
  toUpperCase (toLowerCase s) = toUpperCase s.
Proof.
  unfold toUpperCase, toLowerCase. induction s as [|c s IH]; simpl.
  - intros _. repeat split. constructor.
  - intros H. apply andb_true_iff in H. destruct H as [Hc Hs].
    destruct (IH Hs) as (I1 & I2 & I3 & I4 & I5).
    destruct (upper_char_hex c Hc) as (C1 & C2 & C3 & C4 & C5 & _).
    rewrite C1, I1, C3, I3, C4, I4, C5, I5. repeat split. constructor; assumption.
Qed.

Lemma hex64_unprefixed (h : string) : hex64 h -> strip_0x h = h.
Proof.
  intros [_ Hall]. apply strip_0x_unprefixed. intros x r ->.
  simpl in Hall. inversion Hall as [|? ? _ Hrest]; subst.
  inversion Hrest as [|? ? Hx _]; subst.
  assert (Hh : is_hex x = true) by (rewrite is_hex_spec; apply bool_decide_eq_true, Hx).
  destruct (upper_char_hex x Hh) as (_ & _ & _ & _ & _ & H1 & H2). split; assumption.
Qed.

Lemma hex64_all (h : string) :
  hex64 h -> String.length h = 64%nat /\ all_chars is_hex h = true.
Proof.
  intros H. apply test_hex64_spec in H. unfold test_hex64 in H.
  apply andb_true_iff in H. destruct H as [Hl Ha]. apply Nat.eqb_eq in Hl. auto.
Qed.

Lemma hex64_intro (h : string) :
  String.length h = 64%nat -> all_chars is_hex h = true -> hex64 h.
Proof.
  intros Hl Ha. apply test_hex64_spec. unfold test_hex64.
  rewrite Ha, Hl. reflexivity.
Qed.

Lemma normalizeHash_plain (k : string) :
  hex64 k -> normalizeHash k = Some ("0x" +:+ toUpperCase k).
Proof.
  intros Hk. rewrite (normalizeHash_hex k); rewrite (hex64_unprefixed k Hk);
    [reflexivity | exact Hk].
Qed.

(** X1: The answer of [normalizeHash] is canonical: [0x] followed by 64
    characters out of [0-9A-F]; and it is a fixed point: normalizing it again
    returns it unchanged. *)
Theorem normalizeHash_canonical (q h : string) :
  normalizeHash q = Some h ->
  (exists u, h = "0x" +:+ u /\ String.length u = 64%nat /\
             Forall (fun c => c ∈ upper_hex_digits) (list_ascii_of_string u)) /\
  normalizeHash h = Some h.
Proof.
  unfold normalizeHash at 1. destruct (test_hex64 (strip_0x q)) eqn:E; [| discriminate].
  cbn. intros [= <-].
  assert (Hq : hex64 (strip_0x q)) by (apply test_hex64_spec, E).
  destruct (hex64_all _ Hq) as [Hl Ha].
  destruct (all_hex_upper _ Ha) as (U1 & U2 & U3 & _ & _).
  split.
  - exists (toUpperCase (strip_0x q)). split; [reflexivity | split; [| exact U2]].
    unfold toUpperCase. rewrite length_map_chars. exact Hl.
  - assert (Hs : strip_0x ("0x" +:+ toUpperCase (strip_0x q)) = toUpperCase (strip_0x q)).
    { apply (strip_0x_prefixed "x"). left. reflexivity. }
    unfold normalizeHash. rewrite Hs.
    assert (Hu : hex64 (toUpperCase (strip_0x q))).
    { apply hex64_intro; [| exact U1]. unfold toUpperCase.
      rewrite length_map_chars. exact Hl. }
    apply test_hex64_spec in Hu. rewrite Hu, U3. reflexivity.
Qed.

Lemma normalizeHash_canonical_witness :
  normalizeHash sample_HASH = Some sample_HASH.
Proof.
  destruct (normalizeHash_canonical sample_hash sample_HASH) as [_ H];
    [reflexivity | exact H].
Defined.

(** X2: The same hash written with or without the prefix, with [0x] or [0X],
    in lower or upper case, is normalized to the same canonical form. *)
Theorem normalizeHash_variants (h : string) :
  hex64 h ->
  let canonical := Some ("0x" +:+ toUpperCase h) in
  normalizeHash h = canonical /\
  normalizeHash ("0x" +:+ h) = canonical /\
  normalizeHash ("0X" +:+ h) = canonical /\
  normalizeHash (toLowerCase h) = canonical /\
  normalizeHash (toUpperCase h) = canonical.
Proof.
  intros Hh canonical. subst canonical.
  destruct (hex64_all _ Hh) as [Hl Ha].
  destruct (all_hex_upper _ Ha) as (U1 & _ & U3 & L1 & L2).
  pose proof normalizeHash_plain as Hplain.
  assert (Hpre : forall x, x = "x"%char \/ x = "X"%char ->
            normalizeHash (String "0" (String x h)) = Some ("0x" +:+ toUpperCase h)).
  { intros x Hx. unfold normalizeHash. rewrite (strip_0x_prefixed x h Hx).
    apply test_hex64_spec in Hh. rewrite Hh. reflexivity. }
  split; [exact (Hplain h Hh) | split; [| split; [| split]]].
  - apply (Hpre "x"%char). left. reflexivity.
  - apply (Hpre "X"%char). right. reflexivity.
  - rewrite Hplain, L2; [reflexivity |].
    apply hex64_intro; [| exact L1]. unfold toLowerCase.
    rewrite length_map_chars. exact Hl.
  - rewrite Hplain, U3; [reflexivity |].
    apply hex64_intro; [| exact U1]. unfold toUpperCase.
    rewrite length_map_chars. exact Hl.
Qed.

Lemma normalizeHash_variants_witness :
  normalizeHash ("0X" +:+ sample_hash) = Some sample_HASH /\
  normalizeHash (toUpperCase sample_hash) = Some sample_HASH.
Proof.
  destruct (normalizeHash_variants sample_hash) as (_ & _ & H1 & _ & H2).
  - apply test_hex64_spec. reflexivity.
  - split; [exact H1 | exact H2].
Defined.

Lemma digits_are_upper (s : string) :
  all_chars is_digit s = true -> toUpperCase s = s /\ all_chars is_hex s = true.
Proof.
  unfold toUpperCase. induction s as [|c s IH]; simpl; [auto |].
  intros H. apply andb_true_iff in H. destruct H as [Hc Hs].
  destruct (IH Hs) as [I1 I2]. rewrite I1, I2.
  assert (upper_char c = c /\ is_hex c = true) as [-> ->]; [| auto].
  revert Hc. clear. destruct c as [[] [] [] [] [] [] [] []]; vm_compute;
    intros H; first [discriminate H | auto].
Qed.

Lemma searchLedger_digits (rpc : Rpc) (q : string) :
  test_digits q = true ->
  snd (searchLedger rpc q) =
    (blk <- fetchJson (rpc_block rpc (Number q));;
     h <- get_path (Some blk) ["result"; "block_id"; "hash"];;
     p <- get (Some blk) "result";;
     Return (Some {| type := block; height := Number q; hash := h;
                     result_payload := p |}))%completion.
Proof. intros Hd. unfold searchLedger. rewrite Hd. reflexivity. Qed.

Lemma json_null_dec (v : json) : v = JNull \/ v <> JNull.
Proof. destruct v; first [left; reflexivity | right; discriminate]. Qed.

(** Reading a property of a value that is neither [undefined] nor [null]
    does not throw. *)
Lemma get_defined (v : json) (name : string) :
  v <> JNull -> exists w, get (Some v) name = Return w.
Proof. intros H. destruct v; cbn; eauto. contradiction. Qed.

(** What a property read throws is a [TypeError]. *)
Lemma get_throws (v : option json) (name : string) (e : exn) :
  get v name = Throw e -> exists m, e = TypeError m.
Proof. destruct v as [[]|]; cbn; intros [=]; subst; eauto. Qed.

(** X3: The first rule wins also over a well-formed hash: a query of 64 decimal
    digits, which [normalizeHash] accepts as a hash, is looked up as a block
    height, and no transaction lookup is made for it. *)
Theorem digit_hash_is_looked_up_as_block (rpc : Rpc) (q : string) :
  digits_only q -> String.length q = 64%nat ->
  normalizeHash q = Some ("0x" +:+ q) /\
  fst (searchLedger rpc q) = [GetBlock (Number q)] /\
  (forall r, snd (searchLedger rpc q) = Return (Some r) -> type r = block).
Proof.
  intros Hd Hl. apply test_digits_spec in Hd.
  assert (Ha : all_chars is_digit q = true).
  { destruct q; [discriminate Hl | exact Hd]. }
  destruct (digits_are_upper q Ha) as [Hu Hx].
  assert (Hh : hex64 q) by (apply hex64_intro; assumption).
  split; [| split].
  - rewrite (normalizeHash_plain q Hh), Hu. reflexivity.
  - rewrite searchLedger_requests, Hd. reflexivity.
  - intros r. rewrite (searchLedger_digits rpc q Hd).
    destruct (fetchJson _) as [v|]; [cbn [bind get_path] | discriminate].
    destruct (get (Some v) "result") as [res|]; [| discriminate].
    destruct (get res "block_id") as [bid|]; [| discriminate].
    destruct (get bid "hash"); [| discriminate].
    cbn [bind]. intros [= <-]. reflexivity.
Qed.

Lemma digit_hash_is_looked_up_as_block_witness :
  fst (searchLedger node_up sixty_four_digits) = [GetBlock (Number sixty_four_digits)].
Proof.
  destruct (digit_hash_is_looked_up_as_block node_up sixty_four_digits) as (_ & H & _).
  - apply test_digits_spec. reflexivity.
  - reflexivity.
  - exact H.
Defined.

(** X4: [searchLedger] never makes more than one request. A digit query is
    never answered with [null]: it returns a block, of the height asked for
    and with the hash and the [result] read from the answer, or it throws,
    either what the lookup threw or the [TypeError] of reading
    [result.block_id.hash] from an answer that has no such member (so a height
    the node does not have surfaces as an error, not as no match). A [null]
    answer comes from a query that is no hash, without any request, or from a
    transaction lookup that threw or whose answer has no [result]; what such
    a lookup returns otherwise is a transaction with the height, the hash and
    the [result] read from the answer, and it never throws to the caller. *)
Theorem searchLedger_outcomes (rpc : Rpc) (q : string) :
  (length (fst (searchLedger rpc q)) <= 1)%nat /\
  (digits_only q ->
   snd (searchLedger rpc q) <> Return None /\
   (forall r, snd (searchLedger rpc q) = Return (Some r) ->
      type r = block /\ height r = Number q /\
      exists v, fetchJson (rpc_block rpc (Number q)) = Return v /\
                get_path (Some v) ["result"; "block_id"; "hash"] = Return (hash r) /\
                get (Some v) "result" = Return (result_payload r)) /\
   (forall v, fetchJson (rpc_block rpc (Number q)) = Return v -> no_result v ->
      exists m, snd (searchLedger rpc q) = Throw (TypeError m))) /\
  (snd (searchLedger rpc q) = Return None ->
   ~ digits_only q /\
   (normalizeHash q = None /\ fst (searchLedger rpc q) = [] \/
    exists h, normalizeHash q = Some h /\
      ((exists e, fetchJson (rpc_tx rpc h) = Throw e) \/
       (exists v, fetchJson (rpc_tx rpc h) = Return v /\ no_result v)))) /\
  (~ digits_only q ->
   forall h v, normalizeHash q = Some h ->
     fetchJson (rpc_tx rpc h) = Return v -> no_result v ->
     searchLedger rpc q = ([GetTx h], Return None)) /\
  (~ digits_only q ->
   forall r, snd (searchLedger rpc q) = Return (Some r) ->
     type r = transaction /\
     exists h v ht, normalizeHash q = Some h /\
       fetchJson (rpc_tx rpc h) = Return v /\
       get_path (Some v) ["result"; "height"] = Return ht /\
       height r = Number_of_value ht /\
       get_path (Some v) ["result"; "hash"] = Return (hash r) /\
       get (Some v) "result" = Return (result_payload r)) /\
  (forall e, snd (searchLedger rpc q) = Throw e ->
     digits_only q /\
     (fetchJson (rpc_block rpc (Number q)) = Throw e \/
      exists v, fetchJson (rpc_block rpc (Number q)) = Return v /\
                get_path (Some v) ["result"; "block_id"; "hash"] = Throw e)).
Proof.
  split; [| split; [| split; [| split; [| split]]]].
  - rewrite searchLedger_requests. destruct (test_digits q); [simpl; lia |].
    destruct (normalizeHash q); simpl; lia.
  - intros Hd. apply test_digits_spec in Hd. rewrite (searchLedger_digits rpc q Hd).
    destruct (fetchJson _) as [v|e]; cbn [bind get_path];
      [| split; [discriminate | split; [intros r [=] | intros v [=]]]].
    destruct (get (Some v) "result") as [res|e] eqn:Hres; cbn [bind].
    + destruct (get res "block_id") as [bid|e] eqn:Hbid; cbn [bind].
      * destruct (get bid "hash") as [h|e] eqn:Hh; cbn [bind].
        -- split; [discriminate | split].
           ++ intros r [= <-]. cbn [type height hash result_payload].
              repeat split. exists v. cbn [get_path]. rewrite Hres, Hbid, Hh.
              repeat split.
           ++ intros v' [= <-] Hn. destruct res as [res|]; [| discriminate Hbid].
              rewrite (Hn res Hres) in Hbid. discriminate Hbid.
        -- split; [discriminate | split; [intros r [=] |]].
           intros _ _ _. destruct (get_throws _ _ _ Hh) as [m ->]. eauto.
      * split; [discriminate | split; [intros r [=] |]].
        intros _ _ _. destruct (get_throws _ _ _ Hbid) as [m ->]. eauto.
    + split; [discriminate | split; [intros r [=] |]].
      intros _ _ _. destruct (get_throws _ _ _ Hres) as [m ->]. eauto.
  - unfold searchLedger. destruct (test_digits q) eqn:Hd.
    + cbn [snd]. intros H. exfalso.
      destruct (fetchJson _) as [v|]; [cbn [bind get_path] in H | discriminate H].
      destruct (get (Some v) "result") as [res|]; [cbn [bind] in H | discriminate H].
      destruct (get res "block_id") as [bid|]; [cbn [bind] in H | discriminate H].
      destruct (get bid "hash"); discriminate H.
    + intros H. split.
      * intros Hq. apply test_digits_spec in Hq. congruence.
      * destruct (normalizeHash q) as [h|]; [| left; split; reflexivity].
        right. exists h. split; [reflexivity |]. cbn [snd] in H.
        destruct (fetchJson (rpc_tx rpc h)) as [v|e]; [| left; eauto].
        right. exists v. split; [reflexivity |]. intros res Hres.
        destruct (json_null_dec res) as [E|E]; [exact E | exfalso].
        cbn [bind get_path catch] in H. rewrite Hres in H.
        destruct (get_defined res "height" E) as [w1 H1].
        destruct (get_defined res "hash" E) as [w2 H2].
        rewrite H1, H2 in H. discriminate H.
  - intros Hd h v Hh Hf Hn. unfold searchLedger.
    rewrite (test_digits_false _ Hd), Hh, Hf. f_equal. cbn [bind get_path catch].
    destruct (get (Some v) "result") as [[res|]|] eqn:Hres; try reflexivity.
    rewrite (Hn res Hres). reflexivity.
  - intros Hd r. unfold searchLedger. rewrite (test_digits_false _ Hd).
    destruct (normalizeHash q) as [h|]; [cbn [snd] | discriminate].
    destruct (fetchJson (rpc_tx rpc h)) as [v|] eqn:Hf;
      cbn [bind get_path catch]; [| discriminate].
    destruct (get (Some v) "result") as [res|] eqn:Hres;
      cbn [bind catch]; [| discriminate].
    destruct (get res "height") as [ht|] eqn:Hht; cbn [bind catch]; [| discriminate].
    destruct (get res "hash") as [hs|] eqn:Hhs; cbn [bind catch]; [| discriminate].
    intros [= <-]. cbn [type height hash result_payload].
    split; [reflexivity |]. exists h, v, ht.
    repeat split; try assumption; cbn [get_path]; rewrite Hres, ?Hht, ?Hhs; reflexivity.
  - intros e. unfold searchLedger. destruct (test_digits q) eqn:Hd.
    + cbn [snd]. intros H. split; [apply test_digits_spec, Hd |].
      destruct (fetchJson _) as [v|e']; cbn [bind get_path] in H;
        [| left; congruence].
      right. exists v. split; [reflexivity |]. cbn [get_path].
      destruct (get (Some v) "result") as [res|]; cbn [bind] in H; [| congruence].
      destruct (get res "block_id") as [bid|]; cbn [bind] in H; [| congruence].
      destruct (get bid "hash"); cbn [bind] in H; [discriminate H | congruence].
    + destruct (normalizeHash q); [| discriminate]. cbn [snd].
      destruct (fetchJson _) as [v|]; [cbn [bind get_path catch] | discriminate].
      destruct (get (Some v) "result") as [res|]; [| discriminate].
      destruct (get res "height"); [| discriminate].
      destruct (get res "hash"); discriminate.
Qed.

Lemma searchLedger_outcomes_witness :
  (exists m, snd (searchLedger node_empty "12345") = Throw (TypeError m)) /\
  searchLedger node_empty sample_hash = ([GetTx sample_HASH], Return None).
Proof.
  assert (Hn : no_result (JObj [])) by (intros r H; discriminate H).
  destruct (searchLedger_outcomes node_empty "12345") as (_ & H & _).
  destruct (searchLedger_outcomes node_empty sample_hash) as (_ & _ & _ & H' & _ & _).
  split.
  - destruct H as (_ & _ & H); [apply test_digits_spec; reflexivity |].
    apply (H (JObj [])); [reflexivity | exact Hn].
  - apply (H' (fun Hd => ltac:(apply test_digits_spec in Hd; discriminate Hd))
              sample_HASH (JObj [])); [reflexivity | reflexivity | exact Hn].
Defined.

(** X5: [onSearch] never shows a result and an error together; a blank input
    clears both and asks nothing; any other input ends with exactly one of
    the two set. *)
Theorem onSearch_result_xor_error (rpc : Rpc) (value : string) :
  let v := snd (onSearch rpc value) in
  (trim value = "" ->
   onSearch rpc value = ([], {| searchResult := None; searchError := None |})) /\
  (trim value <> "" ->
   (is_Some (searchResult v) /\ searchError v = None) \/
   (searchResult v = None /\ is_Some (searchError v))) /\
  ~ (is_Some (searchResult v) /\ is_Some (searchError v)).
Proof.
  cbn zeta. unfold onSearch.
  destruct (String.eqb_spec (trim value) "") as [E|E].
  - split; [reflexivity | split; [contradiction |]].
    cbn. intros [[? H] _]. discriminate H.
  - split; [contradiction | ].
    destruct (searchLedger rpc (trim value)) as [reqs [[r|]|e]]; cbn; split;
      try (intros _; first [left; split; [eauto | reflexivity]
                           | right; split; [reflexivity | eauto]]);
      intros [[? H1] [? H2]]; discriminate.
Qed.

Lemma onSearch_result_xor_error_witness :
  onSearch node_up "   " = ([], {| searchResult := None; searchError := None |}).
Proof.
  destruct (onSearch_result_xor_error node_up "   ") as (H & _).
  apply H. reflexivity.
Defined.

End ResolverFacts.

(** ** The fetch gateway: round trip and frame *)

Module GatewayFacts.
Import Js Explorer Notions MoreNotions ViewFacts.

Lemma emitted_snd_fetchAPI (env : Env) (endpoint : string) (s : Sys) :
  requested (emitted (fun s => snd (fetchAPI env endpoint s)) s) =
    match cache_get (cache (self s)) (cacheTimeout (self s)) (now env) endpoint with
    | Some _ => []
    | None => [apiUrl (self s) +:+ endpoint]
    end.
Proof.
  unfold emitted, fetchAPI. destruct (cache_get _ _ _ _).
  - cbn. rewrite drop_all. reflexivity.
  - destruct (reply _) as [reason | status statusText text body];
      [| destruct (negb (ok status)); [| destruct body]];
      cbn; rewrite drop_app_length; reflexivity.
Qed.

(** X6: What [fetchAPI] has fetched it serves again: after a call that went to
    the server and returned [d], a call for the same endpoint less than the
    timeout after the answer came in returns [d] without a request and
    changes nothing; from the timeout on it asks the server again. *)
Theorem fetchAPI_round_trip (env1 env2 : Env) (endpoint : string) (s : Sys) (d : json) :
  cache_get (cache (self s)) (cacheTimeout (self s)) (now env1) endpoint = None ->
  fst (fetchAPI env1 endpoint s) = Return d ->
  let s1 := snd (fetchAPI env1 endpoint s) in
  let stored := now env1 + latency (net env1 (apiUrl (self s) +:+ endpoint)) in
  (now env2 - stored < cacheTimeout (self s) ->
   fetchAPI env2 endpoint s1 = (Return d, s1) /\
   requested (emitted (fun s => snd (fetchAPI env2 endpoint s)) s1) = []) /\
  (cacheTimeout (self s) <= now env2 - stored ->
   requested (emitted (fun s => snd (fetchAPI env2 endpoint s)) s1)
     = [apiUrl (self s) +:+ endpoint]).
Proof.
  intros Hmiss Hret s1 stored.
  assert (Hs1 : cache (self s1) !! endpoint = Some {| data := d; timestamp := stored |}
                /\ cacheTimeout (self s1) = cacheTimeout (self s)
                /\ apiUrl (self s1) = apiUrl (self s)).
  { subst s1 stored. revert Hret. unfold fetchAPI. rewrite Hmiss.
    destruct (reply _) as [reason | status statusText text body]; [discriminate |].
    destruct (negb (ok status)); [discriminate |].
    destruct body as [d'|]; [| discriminate].
    cbn. intros [= ->]. unfold cache_put. rewrite lookup_insert_eq. auto. }
  destruct Hs1 as (Hentry & Htimeout & Hurl).
  assert (Hget : cache_get (cache (self s1)) (cacheTimeout (self s1)) (now env2) endpoint
                 = if now env2 - stored <? cacheTimeout (self s) then Some d else None).
  { unfold cache_get. rewrite Hentry, Htimeout. reflexivity. }
  split.
  - intros Hlt. apply Z.ltb_lt in Hlt. rewrite Hlt in Hget. split.
    + unfold fetchAPI. rewrite Hget. reflexivity.
    + rewrite emitted_snd_fetchAPI, Hget. reflexivity.
  - intros Hge. apply Z.ltb_ge in Hge. rewrite Hge in Hget.
    rewrite emitted_snd_fetchAPI, Hget, Hurl. reflexivity.
Qed.

Lemma fetchAPI_round_trip_witness :
  let s := boot default_config in
  let s1 := snd (fetchAPI (env_at 0 payload_100) first_blocks_page s) in
  fetchAPI (env_at 5029 payload_101) first_blocks_page s1 = (Return payload_100, s1) /\
  requested (emitted (fun s => snd (fetchAPI (env_at 5030 payload_101) first_blocks_page s)) s1)
    = ["http://localhost:8000/api/blocks?limit=20&offset=0"].
Proof.
  intros s s1.
  destruct (fetchAPI_round_trip (env_at 0 payload_100) (env_at 5029 payload_101)
              first_blocks_page s payload_100 eq_refl eq_refl) as [H _].
  destruct (fetchAPI_round_trip (env_at 0 payload_100) (env_at 5030 payload_101)
              first_blocks_page s payload_100 eq_refl eq_refl) as [_ H'].
  split.
  - apply H. vm_compute. reflexivity.
  - apply H'. vm_compute. discriminate.
Defined.

(** X7: [fetchAPI] touches nothing but the entry of its own endpoint and the
    trace: the entries of all other endpoints, the views, the filters and the
    timers are as before; and what it returns is what the cache holds for the
    endpoint afterwards. *)
Theorem fetchAPI_frame (env : Env) (endpoint : string) (s : Sys) :
  let s' := snd (fetchAPI env endpoint s) in
  (forall key, key <> endpoint -> cache (self s') !! key = cache (self s) !! key) /\
  pagination (self s') = pagination (self s) /\
  filters (self s') = filters (self s) /\
  refreshInterval (self s') = refreshInterval (self s) /\
  intervals s' = intervals s /\
  channel s' = channel s /\
  (forall d, fst (fetchAPI env endpoint s) = Return d ->
     exists t, cache (self s') !! endpoint = Some {| data := d; timestamp := t |}).
Proof.
  cbn zeta. unfold fetchAPI.
  destruct (cache_get (cache (self s)) (cacheTimeout (self s)) (now env) endpoint)
    as [d0|] eqn:Hget.
  - cbn. repeat split. intros d [= <-]. unfold cache_get in Hget.
    destruct (cache (self s) !! endpoint) as [[d1 t1]|]; [| discriminate].
    cbn in Hget. destruct (_ <? _); [| discriminate].
    injection Hget as ->. exists t1. reflexivity.
  - destruct (reply _) as [reason | status statusText text body];
      [| destruct (negb (ok status)); [| destruct body as [d1|]]];
      cbn; repeat split; try discriminate.
    + intros key Hk. unfold cache_put. apply lookup_insert_ne. congruence.
    + intros d [= <-]. eexists. unfold cache_put. apply lookup_insert_eq.
Qed.

Lemma fetchAPI_frame_witness :
  cache (self (snd (fetchAPI (env_at 9000 payload_101) "/api/stats" loaded)))
    !! first_blocks_page
  = Some {| data := payload_100; timestamp := 30 |} /\
  exists t, cache (self (snd (fetchAPI (env_at 9000 payload_101) "/api/stats" loaded)))
              !! "/api/stats" = Some {| data := payload_101; timestamp := t |}.
Proof.
  destruct (fetchAPI_frame (env_at 9000 payload_101) "/api/stats" loaded)
    as (Hother & _ & _ & _ & _ & _ & Hown).
  split.
  - rewrite Hother; [vm_compute; reflexivity | discriminate].
  - apply Hown. vm_compute. reflexivity.
Defined.

End GatewayFacts.

(** ** Handlers: messages, ticks and start-up *)

Module HandlerFacts.
Import Js Explorer Notions MoreNotions ViewFacts.
Local Open Scope list_scope.

Lemma entered_app (l1 l2 : list loader) (e1 e2 : list event) :
  entered l1 e1 -> entered l2 e2 -> entered (l1 ++ l2) (e1 ++ e2).
Proof.
  unfold entered, invoked, reconnections, timers_created.
  intros (A1 & A2 & A3) (B1 & B2 & B3). rewrite !omap_app.
  rewrite A1, A2, A3, B1, B2, B3. repeat split.
Qed.

Lemma entered_loader (l : loader) (evs : list event) :
  quiet evs -> entered [l] (Invoke l :: evs).
Proof.
  unfold quiet, entered, invoked, reconnections, timers_created.
  intros (A1 & A2 & A3). cbn. rewrite A1, A2, A3. repeat split.
Qed.

Lemma entered_nil : entered [] [].
Proof. repeat split. Qed.

Lemma with_cache_touch (f : gmap string CacheEntry -> gmap string CacheEntry) (s : Sys) :
  with_self (fun a => set_cache (f (cache a)) a) s = touch (f (cache (self s))) [] s.
Proof. destruct s as [[] ? ? ? ?]. unfold touch. cbn. rewrite app_nil_r. reflexivity. Qed.

Lemma runs_loader (l : loader) (f : Sys -> Sys) (s : Sys) : loads l f -> runs [l] f s.
Proof.
  intros Hf. destruct (Hf s) as (c & evs & Hs & Hq).
  exists c, (Invoke l :: evs). split; [exact Hs | apply entered_loader, Hq].
Qed.

Lemma runs_skip (s : Sys) : runs [] (fun s => s) s.
Proof. exists (cache (self s)), []. split; [apply touch_id | apply entered_nil]. Qed.

Lemma runs_seq (l1 l2 : list loader) (f g : Sys -> Sys) (s : Sys) :
  runs l1 f s -> (forall s', runs l2 g s') -> runs (l1 ++ l2) (fun s => g (f s)) s.
Proof.
  intros (c1 & e1 & H1 & E1) Hg. destruct (Hg (f s)) as (c2 & e2 & H2 & E2).
  exists c2, (e1 ++ e2). split; [| apply entered_app; assumption].
  rewrite H2, H1. apply touch_touch.
Qed.

Lemma runs_emitted (ls : list loader) (f : Sys -> Sys) (s : Sys) :
  runs ls f s ->
  invoked (emitted f s) = ls /\ reconnections (emitted f s) = [] /\
  timers_created (emitted f s) = [] /\
  pagination (self (f s)) = pagination (self s) /\
  filters (self (f s)) = filters (self s) /\
  refreshInterval (self (f s)) = refreshInterval (self s) /\
  intervals (f s) = intervals s /\ channel (f s) = channel s.
Proof.
  intros (c & evs & Hs & E1 & E2 & E3).
  rewrite (emitted_touch f s s c evs Hs eq_refl), Hs. repeat split; assumption.
Qed.

Lemma handleNewTransaction_runs (env : Env) (txData : json) (s : Sys) :
  runs (if page (txs (pagination (self s))) =? 1 then [LoadTransactions] else [])
       (handleNewTransaction env txData) s.
Proof.
  unfold runs, handleNewTransaction. cbn zeta.
  set (s1 := with_self (fun a => set_cache (delete "transactions" (cache a)) a) s).
  change (page (txs (pagination (self s1)))) with (page (txs (pagination (self s)))).
  assert (Hs1 : s1 = touch (delete "transactions" (cache (self s))) [] s)
    by apply with_cache_touch.
  destruct (page (txs (pagination (self s))) =? 1).
  - destruct (loadTransactions_loads env s1) as (c & evs & Hs & Hq).
    exists c, (Invoke LoadTransactions :: evs). split; [| apply entered_loader, Hq].
    rewrite Hs, Hs1, touch_touch. reflexivity.
  - exists (delete "transactions" (cache (self s))), []. split; [exact Hs1 | apply entered_nil].
Qed.

Lemma handleNewBlock_runs (env : Env) (blockData : json) (s : Sys) :
  runs (if page (blocks (pagination (self s))) =? 1
        then [LoadBlocks; UpdateQuickStats] else [UpdateQuickStats])
       (handleNewBlock env blockData) s.
Proof.
  assert (Hs1 : with_self (fun a => set_cache (delete "blocks" (cache a)) a) s
                = touch (delete "blocks" (cache (self s))) [] s)
    by apply with_cache_touch.
  destruct (Z.eqb_spec (page (blocks (pagination (self s)))) 1) as [Hp|Hp].
  - destruct (handleNewBlock_first env blockData s Hp) as (c & e1 & e2 & Q1 & Q2 & Hs & _).
    exists c, ((Invoke LoadBlocks :: e1) ++ Invoke UpdateQuickStats :: e2).
    split.
    + rewrite Hs, Hs1, touch_touch. reflexivity.
    + apply (entered_app [LoadBlocks] [UpdateQuickStats]); apply entered_loader; assumption.
  - destruct (handleNewBlock_later env blockData s Hp) as (c & e2 & Q2 & Hs & _).
    exists c, (Invoke UpdateQuickStats :: e2). split.
    + rewrite Hs, Hs1, touch_touch. reflexivity.
    + apply entered_loader, Q2.
Qed.

(** X8: [handleNewTransaction]: a [new_transaction] message enters the loader
    of the transactions once when they are on page 1 and does nothing that
    shows on any later page; it never refreshes the statistics, and it leaves
    the views, the filters and the timers as they are. *)
Theorem new_transaction_refetches (env : Env) (txData : json) (s : Sys) :
  let handler := dispatch env
    (SocketMessage (Some {| msg_type := "new_transaction"; msg_data := txData |})) in
  (page (view Transactions s) = 1 ->
   invoked (emitted handler s) = [LoadTransactions]) /\
  (page (view Transactions s) <> 1 -> emitted handler s = []) /\
  pagination (self (handler s)) = pagination (self s) /\
  filters (self (handler s)) = filters (self s) /\
  intervals (handler s) = intervals s.
Proof.
  cbn zeta.
  assert (Hd : dispatch env
      (SocketMessage (Some {| msg_type := "new_transaction"; msg_data := txData |}))
      = handleNewTransaction env txData) by reflexivity.
  rewrite Hd. cbn [view].
  destruct (runs_emitted _ _ _ (handleNewTransaction_runs env txData s))
    as (Hi & _ & _ & Hp & Hf & _ & Ht & _).
  split; [| split; [| auto]].
  - intros H1. rewrite Hi, H1. reflexivity.
  - intros H1. apply Z.eqb_neq in H1.
    unfold emitted, handleNewTransaction. cbn [self with_self pagination set_cache].
    rewrite H1. cbn. apply drop_all.
Qed.

Lemma new_transaction_refetches_witness :
  invoked (emitted (dispatch (env_at 1000 payload_101)
    (SocketMessage (Some {| msg_type := "new_transaction"; msg_data := JNull |}))) loaded)
  = [LoadTransactions] /\
  emitted (dispatch (env_at 1000 payload_101)
    (SocketMessage (Some {| msg_type := "new_transaction"; msg_data := JNull |})))
    (nextTxsPage (env_at 500 payload_100) loaded) = [].
Proof.
  split.
  - destruct (new_transaction_refetches (env_at 1000 payload_101) JNull loaded) as (H & _).
    apply H. reflexivity.
  - destruct (new_transaction_refetches (env_at 1000 payload_101) JNull
                (nextTxsPage (env_at 500 payload_100) loaded)) as (_ & H & _).
    apply H. vm_compute. discriminate.
Defined.

(** X9: [handleWSMessage]: only [new_block] and [new_transaction] do anything.
    A message of any other type, [subscribed] included, and a message that
    cannot be parsed leave the session exactly as it is; and no message
    whatever changes a view, a filter, a timer or the shown channel state, or
    schedules a reconnection. *)
Theorem other_messages_are_ignored (env : Env) (parsed : option ws_message) (s : Sys) :
  (forall m, parsed = Some m ->
     msg_type m <> "new_block" -> msg_type m <> "new_transaction" ->
     dispatch env (SocketMessage parsed) s = s) /\
  (parsed = None -> dispatch env (SocketMessage parsed) s = s) /\
  (let s' := dispatch env (SocketMessage parsed) s in
   pagination (self s') = pagination (self s) /\
   filters (self s') = filters (self s) /\
   refreshInterval (self s') = refreshInterval (self s) /\
   intervals s' = intervals s /\ channel s' = channel s /\
   reconnections (emitted (dispatch env (SocketMessage parsed)) s) = [] /\
   timers_created (emitted (dispatch env (SocketMessage parsed)) s) = []).
Proof.
  split; [| split].
  - intros m -> Hb Ht. cbn [dispatch onmessage]. unfold handleWSMessage.
    apply <- String.eqb_neq in Hb. apply <- String.eqb_neq in Ht. rewrite Hb, Ht.
    destruct (String.eqb (msg_type m) "subscribed"); reflexivity.
  - intros ->. reflexivity.
  - cbn zeta.
    assert (Hr : exists ls, runs ls (dispatch env (SocketMessage parsed)) s).
    { unfold runs.
      destruct parsed as [m|]; cbn [dispatch onmessage]; [| eexists; apply runs_skip].
      unfold handleWSMessage.
      destruct (String.eqb (msg_type m) "new_block");
        [eexists; apply handleNewBlock_runs |].
      destruct (String.eqb (msg_type m) "new_transaction");
        [eexists; apply handleNewTransaction_runs |].
      destruct (String.eqb (msg_type m) "subscribed"); eexists; apply runs_skip. }
    destruct Hr as [ls Hr].
    destruct (runs_emitted _ _ _ Hr) as (_ & H2 & H3 & H4 & H5 & H6 & H7 & H8).
    auto 10.
Qed.

Lemma other_messages_are_ignored_witness :
  dispatch (env_at 1000 payload_101)
    (SocketMessage (Some {| msg_type := "subscribed"; msg_data := JNull |})) loaded = loaded.
Proof.
  destruct (other_messages_are_ignored (env_at 1000 payload_101)
              (Some {| msg_type := "subscribed"; msg_data := JNull |}) loaded) as (H & _).
  apply (H _ eq_refl); discriminate.
Defined.

Ltac solve_entered :=
  repeat match goal with H : quiet _ |- _ => destruct H as (? & ? & ?) end;
  unfold entered, invoked, reconnections, timers_created in *;
  rewrite ?omap_app; cbn;
  repeat match goal with H : omap _ _ = [] |- _ => rewrite H end;
  repeat split; reflexivity.

Lemma refreshTick_runs (env : Env) (s : Sys) :
  runs ((if page (blocks (pagination (self s))) =? 1 then [LoadBlocks] else [])
        ++ (if page (txs (pagination (self s))) =? 1 then [LoadTransactions] else [])
        ++ [UpdateQuickStats])
       (refreshTick env) s.
Proof.
  unfold runs, refreshTick. cbn zeta.
  destruct (page (blocks (pagination (self s))) =? 1).
  - destruct (loadBlocks_loads env s) as (c1 & e1 & -> & Q1).
    change (page (txs (pagination (self (touch c1 (Invoke LoadBlocks :: e1) s)))))
      with (page (txs (pagination (self s)))).
    destruct (page (txs (pagination (self s))) =? 1).
    + destruct (loadTransactions_loads env (touch c1 (Invoke LoadBlocks :: e1) s))
        as (c2 & e2 & -> & Q2).
      match goal with |- context [updateQuickStats env ?t] =>
        destruct (updateQuickStats_loads env t) as (c3 & e3 & -> & Q3) end.
      rewrite !touch_touch. eexists _, _. split; [reflexivity | solve_entered].
    + match goal with |- context [updateQuickStats env ?t] =>
        destruct (updateQuickStats_loads env t) as (c3 & e3 & -> & Q3) end.
      rewrite !touch_touch. eexists _, _. split; [reflexivity | solve_entered].
  - destruct (page (txs (pagination (self s))) =? 1).
    + destruct (loadTransactions_loads env s) as (c2 & e2 & -> & Q2).
      match goal with |- context [updateQuickStats env ?t] =>
        destruct (updateQuickStats_loads env t) as (c3 & e3 & -> & Q3) end.
      rewrite !touch_touch. eexists _, _. split; [reflexivity | solve_entered].
    + destruct (updateQuickStats_loads env s) as (c3 & e3 & -> & Q3).
      eexists _, _. split; [reflexivity | solve_entered].
Qed.

(** X10: The tick of the poll scheduler ([startAutoRefresh]'s callback) enters
    the loader of the blocks only on page 1 of the blocks, the loader of the
    transactions only on page 1 of the transactions, and always the loader of
    the statistics, in this order; it never loads proposals or validators and
    never moves a view or a timer. *)
Theorem refresh_tick_loads (env : Env) (s : Sys) :
  invoked (emitted (dispatch env IntervalTick) s) =
    ((if page (view Blocks s) =? 1 then [LoadBlocks] else [])
     ++ (if page (view Transactions s) =? 1 then [LoadTransactions] else [])
     ++ [UpdateQuickStats])%list /\
  pagination (self (dispatch env IntervalTick s)) = pagination (self s) /\
  filters (self (dispatch env IntervalTick s)) = filters (self s) /\
  refreshInterval (self (dispatch env IntervalTick s)) = refreshInterval (self s) /\
  intervals (dispatch env IntervalTick s) = intervals s.
Proof.
  destruct (runs_emitted _ _ _ (refreshTick_runs env s))
    as (H1 & _ & _ & H4 & H5 & H6 & H7 & _).
  cbn [view]. auto.
Qed.

Lemma loadInitialData_runs (env : Env) (s : Sys) :
  runs initial_loaders (loadInitialData env) s.
Proof.
  unfold loadInitialData, initial_loaders.
  apply (runs_seq [LoadBlocks; LoadTransactions; LoadValidators; LoadProposals;
                   LoadStakingPool] [UpdateQuickStats]
           (fun s => loadStakingPool env (loadProposals env (loadValidators env
                       (loadTransactions env (loadBlocks env s)))))
           (updateQuickStats env));
    [| intros s'; apply runs_loader, updateQuickStats_loads].
  apply (runs_seq [LoadBlocks; LoadTransactions; LoadValidators; LoadProposals]
           [LoadStakingPool]
           (fun s => loadProposals env (loadValidators env
                       (loadTransactions env (loadBlocks env s))))
           (loadStakingPool env));
    [| intros s'; apply runs_loader, loadStakingPool_loads].
  apply (runs_seq [LoadBlocks; LoadTransactions; LoadValidators] [LoadProposals]
           (fun s => loadValidators env (loadTransactions env (loadBlocks env s)))
           (loadProposals env));
    [| intros s'; apply runs_loader, loadProposals_loads].
  apply (runs_seq [LoadBlocks; LoadTransactions] [LoadValidators]
           (fun s => loadTransactions env (loadBlocks env s))
           (loadValidators env));
    [| intros s'; apply runs_loader, loadValidators_loads].
  apply (runs_seq [LoadBlocks] [LoadTransactions] (loadBlocks env) (loadTransactions env));
    [| intros s'; apply runs_loader, loadTransactions_loads].
  apply runs_loader, loadBlocks_loads.
Qed.

(** X11: [init] always completes: whatever the server answers to the requests,
    failures included, and whether or not the socket can be opened, all six
    loaders are entered, in the order of their calls, and afterwards the poll
    scheduler is running. No view is moved and no reconnection is
    scheduled. *)
Theorem init_completes (env : Env) (s : Sys) :
  invoked (emitted (init env) s) = initial_loaders /\
  is_Some (refreshInterval (self (init env s))) /\
  pagination (self (init env s)) = pagination (self s) /\
  reconnections (emitted (init env) s) = [].
Proof.
  unfold init, emitted. cbn beta.
  set (s0 := initWebSocket env s).
  assert (H0 : exists e0, log s0 = log s ++ e0 /\ entered [] e0 /\
                          pagination (self s0) = pagination (self s)).
  { subst s0. unfold initWebSocket. destruct (ws_constructs env).
    - exists [NewWebSocket (wsUrl (self s))]. repeat split.
    - exists []. cbn. rewrite app_nil_r. repeat split. }
  destruct H0 as (e0 & Hl0 & E0 & Hp0).
  destruct (loadInitialData_runs env s0) as (c & evs & Hs & E).
  rewrite Hs.
  assert (H3 : exists e3, log (startAutoRefresh (touch c evs s0)) = (log s0 ++ evs) ++ e3 /\
                          invoked e3 = [] /\ reconnections e3 = [] /\
                          is_Some (refreshInterval (self (startAutoRefresh (touch c evs s0)))) /\
                          pagination (self (startAutoRefresh (touch c evs s0)))
                            = pagination (self s0)).
  { unfold startAutoRefresh. cbn [self touch refreshInterval set_cache].
    destruct (refreshInterval (self s0)) as [h|] eqn:Hh.
    - exists []. cbn. rewrite app_nil_r, Hh. repeat split. eauto.
    - eexists [_]. cbn. repeat split. eauto. }
  destruct H3 as (e3 & Hl3 & I3 & R3 & Hsome & Hp3).
  assert (He : drop (length (log s)) (log (startAutoRefresh (touch c evs s0)))
               = e0 ++ evs ++ e3).
  { rewrite Hl3, Hl0, <- !app_assoc. apply drop_app_length. }
  rewrite He.
  destruct E as (E1 & E2 & _), E0 as (E01 & E02 & _).
  split; [| split; [exact Hsome | split; [congruence |]]].
  - rewrite !invoked_app, E01, E1, I3, app_nil_r. reflexivity.
  - unfold reconnections in *. rewrite !omap_app, E02, E2, R3. reflexivity.
Qed.

End HandlerFacts.

(** ** The lookups of the frontend: search and staking *)

Module LookupFacts.
Import Js Explorer Notions Lookup MoreNotions ViewFacts.
Local Open Scope list_scope.

Lemma fetchAPI_events (env : Env) (endpoint : string) (s : Sys) :
  exists c, snd (fetchAPI env endpoint s) = touch c (gateway_events env endpoint s) s.
Proof.
  unfold fetchAPI, gateway_events. destruct (cache_get _ _ _ _).
  - exists (cache (self s)). apply touch_id.
  - destruct (reply _) as [reason | status statusText text body];
      [| destruct (negb (ok status)); [| destruct body]];
      cbn [snd]; rewrite touch_emit; eexists; reflexivity.
Qed.

Lemma gateway_events_once (env : Env) (endpoint : string) (s : Sys) :
  at_most_once (apiUrl (self s) +:+ endpoint) (requested (gateway_events env endpoint s)) /\
  quiet (gateway_events env endpoint s).
Proof.
  unfold gateway_events. destruct (cache_get _ _ _ _); split;
    first [left; reflexivity | right; reflexivity | repeat split].
Qed.

(** [search] changes nothing but the cache and the trace, and asks the
    server at most once. *)
Lemma search_state (env : Env) (searchInput : option string) (s : Sys) :
  snd (search env searchInput s) = s \/
  exists value, searchInput = Some value /\ trim value <> "" /\
    snd (search env searchInput s)
      = snd (fetchAPI env ("/api/search?q=" +:+ encodeURIComponent (trim value)) s).
Proof.
  unfold search. destruct searchInput as [value|]; [| left; reflexivity].
  cbn zeta. destruct (String.eqb_spec (trim value) "") as [E|E]; [left; reflexivity |].
  right. exists value. split; [reflexivity | split; [exact E |]].
  destruct (fetchAPI env _ s) as [[d|e] s']; [| reflexivity].
  destruct (get (Some d) "type") as [ty|]; [| reflexivity].
  destruct (is_string ty "block"); [destruct (result_of d "height"); reflexivity |].
  destruct (is_string ty "transaction"); [destruct (result_of d "hash"); reflexivity |].
  destruct (is_string ty "address"); [destruct (result_of d "address"); reflexivity |].
  reflexivity.
Qed.

Lemma search_failed_is_no_miss (e : exn) : search_failed e <> Alert "No results found".
Proof. unfold search_failed. cbn. discriminate. Qed.

(** X13: [search] keeps a failed lookup apart from a lookup without a match:
    when the gateway throws (the server cannot be reached, answers with an
    error status or with a body that cannot be parsed), the alert is
    [Search failed: ] with the message of the error; the alert
    [No results found] appears only when the server did answer, with a value
    whose [type] is none of [block], [transaction], [address]. A missing or
    blank input does nothing at all. *)
Theorem search_reports_failure (env : Env) (value : string) (s : Sys) :
  let endpoint := "/api/search?q=" +:+ encodeURIComponent (trim value) in
  (trim value = "" -> search env (Some value) s = (ShowNothing, s)) /\
  search env None s = (ShowNothing, s) /\
  (trim value <> "" ->
   (forall e, fst (fetchAPI env endpoint s) = Throw e ->
      fst (search env (Some value) s) = Alert ("Search failed: " +:+ message_of e)) /\
   (fst (search env (Some value) s) = Alert "No results found" ->
      exists d ty, fst (fetchAPI env endpoint s) = Return d /\
        get (Some d) "type" = Return ty /\
        is_string ty "block" = false /\ is_string ty "transaction" = false /\
        is_string ty "address" = false)).
Proof.
  cbn zeta. unfold search.
  destruct (String.eqb_spec (trim value) "") as [E|E].
  - split; [reflexivity | split; [reflexivity | contradiction]].
  - split; [contradiction | split; [reflexivity |]]. intros _.
    destruct (fetchAPI env _ s) as [[d|e] s']; cbn [fst]; split.
    + intros e' [=].
    + destruct (get (Some d) "type") as [ty|e1] eqn:Hg;
        [| intros H; destruct (search_failed_is_no_miss _ H)].
      destruct (is_string ty "block") eqn:Hb.
      { destruct (result_of d "height"); intros H;
          [discriminate H | destruct (search_failed_is_no_miss _ H)]. }
      destruct (is_string ty "transaction") eqn:Ht.
      { destruct (result_of d "hash"); intros H;
          [discriminate H | destruct (search_failed_is_no_miss _ H)]. }
      destruct (is_string ty "address") eqn:Ha.
      { destruct (result_of d "address"); intros H;
          [discriminate H | destruct (search_failed_is_no_miss _ H)]. }
      intros _. exists d, ty. repeat split; assumption.
    + intros e' [= <-]. reflexivity.
    + intros H. destruct (search_failed_is_no_miss _ H).
Qed.

Lemma search_reports_failure_witness :
  fst (search (env_down 0) (Some " 12345 ") (boot default_config))
    = Alert "Search failed: Failed to fetch".
Proof.
  destruct (search_reports_failure (env_down 0) " 12345 " (boot default_config))
    as (_ & _ & H).
  destruct H as [H _]; [discriminate |].
  exact (H (TypeError "Failed to fetch") eq_refl).
Defined.

Lemma decode_encode_char (c : ascii) (rest : string) :
  decode_first (encode_char c +:+ rest) = Some (c, rest).
Proof. destruct c as [[] [] [] [] [] [] [] []]; reflexivity. Qed.

Lemma encode_char_safe (c : ascii) :
  Forall url_safe (list_ascii_of_string (encode_char c)).
Proof.
  assert (H : forallb (fun x => bool_decide (url_safe x))
                (list_ascii_of_string (encode_char c)) = true).
  { destruct c as [[] [] [] [] [] [] [] []]; vm_compute; reflexivity. }
  apply Forall_forall. intros x Hx. rewrite forallb_forall in H.
  apply list_elem_of_In in Hx. apply (bool_decide_eq_true _), H, Hx.
Qed.

Lemma chars_append (s1 s2 : string) :
  list_ascii_of_string (s1 +:+ s2) = list_ascii_of_string s1 ++ list_ascii_of_string s2.
Proof. induction s1 as [|c s1 IH]; simpl; [reflexivity | rewrite IH; reflexivity]. Qed.

Lemma encodeURIComponent_inj (q1 q2 : string) :
  encodeURIComponent q1 = encodeURIComponent q2 -> q1 = q2.
Proof.
  revert q2. induction q1 as [|c1 q1 IH]; intros [|c2 q2] H.
  - reflexivity.
  - exfalso. pose proof (decode_encode_char c2 (encodeURIComponent q2)) as D.
    cbn [encodeURIComponent] in H. rewrite <- H in D. discriminate D.
  - exfalso. pose proof (decode_encode_char c1 (encodeURIComponent q1)) as D.
    cbn [encodeURIComponent] in H. rewrite H in D. discriminate D.
  - cbn [encodeURIComponent] in H.
    pose proof (decode_encode_char c1 (encodeURIComponent q1)) as D1.
    pose proof (decode_encode_char c2 (encodeURIComponent q2)) as D2.
    rewrite H, D2 in D1. injection D1 as -> Hq. f_equal. apply IH. symmetry. exact Hq.
Qed.

(** X14: The query cannot change the request of [search]: the only request is
    for [/api/search?q=] followed by the encoded query, in which none of
    [& = ? # / +] nor a space occurs, so that the query stays the one
    parameter [q]; and two different queries are never encoded alike, so that
    they never share a cache entry. *)
Theorem search_request_is_encoded (env : Env) (value : string) (s : Sys) :
  let encoded := encodeURIComponent (trim value) in
  at_most_once (apiUrl (self s) +:+ "/api/search?q=" +:+ encoded)
    (requested (emitted (fun s => snd (search env (Some value) s)) s)) /\
  Forall url_safe (list_ascii_of_string encoded) /\
  (forall value', encodeURIComponent (trim value') = encoded -> trim value' = trim value).
Proof.
  cbn zeta. split; [| split].
  - destruct (search_state env (Some value) s) as [Hs | (v & [= <-] & _ & Hs)].
    + left. rewrite (emitted_same _ _ Hs). reflexivity.
    + destruct (fetchAPI_events env ("/api/search?q=" +:+ encodeURIComponent (trim value)) s)
        as [c Hc].
      rewrite Hc in Hs. rewrite (emitted_touch _ s s _ _ Hs eq_refl).
      apply gateway_events_once.
  - induction (trim value) as [|c q IH]; cbn [encodeURIComponent].
    + constructor.
    + rewrite chars_append. apply Forall_app. split; [apply encode_char_safe | exact IH].
  - intros value' H. apply encodeURIComponent_inj, H.
Qed.

Lemma search_request_is_encoded_witness :
  encodeURIComponent (trim " a&b=c d ") = "a%26b%3Dc%20d" /\
  forall value', encodeURIComponent (trim value') = "a%26b%3Dc%20d" ->
                 trim value' = "a&b=c d".
Proof.
  destruct (search_request_is_encoded (env_at 0 payload_100) " a&b=c d "
              (boot default_config)) as (_ & _ & H).
  split; [reflexivity | exact H].
Defined.

Lemma lookupStaking_state (env : Env) (value : string) (s : Sys) :
  trim value <> "" -> startsWith (trim value) "aura" = true ->
  let address := trim value in
  let s1 := snd (fetchAPI env ("/api/staking/delegations/" +:+ address) s) in
  let s2 := snd (fetchAPI env ("/api/staking/unbonding/" +:+ address) s1) in
  let s3 := snd (fetchAPI env ("/api/staking/rewards/" +:+ address) s2) in
  snd (lookupStaking env (Some value) s) = s3 /\
  (fst (lookupStaking env (Some value) s) = Alert "Failed to lookup staking information" \/
   exists d u r, fst (lookupStaking env (Some value) s) = StakingResults d u r /\
     fst (fetchAPI env ("/api/staking/delegations/" +:+ address) s) = Return d /\
     fst (fetchAPI env ("/api/staking/unbonding/" +:+ address) s1) = Return u /\
     fst (fetchAPI env ("/api/staking/rewards/" +:+ address) s2) = Return r).
Proof.
  intros Hne Hp. cbn zeta. unfold lookupStaking. cbn zeta.
  destruct (String.eqb_spec (trim value) "") as [E|_]; [contradiction |].
  rewrite Hp. cbn [negb].
  destruct (fetchAPI env ("/api/staking/delegations/" +:+ trim value) s) as [r1 s1].
  cbn [snd fst].
  destruct (fetchAPI env ("/api/staking/unbonding/" +:+ trim value) s1) as [r2 s2].
  cbn [snd fst].
  destruct (fetchAPI env ("/api/staking/rewards/" +:+ trim value) s2) as [r3 s3].
  cbn [snd fst].
  destruct r1 as [d|]; [| split; [reflexivity | left; reflexivity]].
  destruct r2 as [u|]; [| split; [reflexivity | left; reflexivity]].
  destruct r3 as [r|]; [| split; [reflexivity | left; reflexivity]].
  split; [reflexivity |]. right. exists d, u, r. auto.
Qed.

(** X15: [lookupStaking] asks the server only about an address that is, after
    trimming, not empty and begins with [aura] in lower case: for any other
    input, a missing one included, it shows an alert, sends nothing and
    leaves the session exactly as it is. For an address it accepts it asks at
    most once for each of the delegations, the unbonding entries and the
    rewards of that address, in this order, and shows the results only when
    all three came in. *)
Theorem lookupStaking_validates (env : Env) (value : string) (s : Sys) :
  let address := trim value in
  lookupStaking env None s = (Alert "Please enter an address", s) /\
  (address = "" ->
   lookupStaking env (Some value) s = (Alert "Please enter an address", s)) /\
  (address <> "" -> startsWith address "aura" = false ->
   lookupStaking env (Some value) s = (Alert "Please enter a valid AURA address", s)) /\
  (address <> "" -> startsWith address "aura" = true ->
   exists r1 r2 r3,
     requested (emitted (fun s => snd (lookupStaking env (Some value) s)) s)
       = r1 ++ r2 ++ r3 /\
     at_most_once (apiUrl (self s) +:+ "/api/staking/delegations/" +:+ address) r1 /\
     at_most_once (apiUrl (self s) +:+ "/api/staking/unbonding/" +:+ address) r2 /\
     at_most_once (apiUrl (self s) +:+ "/api/staking/rewards/" +:+ address) r3).
Proof.
  cbn zeta. split; [reflexivity | split; [| split]].
  - intros E. unfold lookupStaking. cbn zeta. rewrite E. reflexivity.
  - intros E Hp. unfold lookupStaking. cbn zeta.
    destruct (String.eqb_spec (trim value) "") as [E'|_]; [contradiction |].
    rewrite Hp. reflexivity.
  - intros E Hp. destruct (lookupStaking_state env value s E Hp) as [Hs _].
    cbn zeta in Hs.
    destruct (fetchAPI_events env ("/api/staking/delegations/" +:+ trim value) s) as [c1 H1].
    rewrite H1 in Hs.
    match type of Hs with context [fetchAPI env ?ep (touch c1 ?e1 s)] =>
      destruct (fetchAPI_events env ep (touch c1 e1 s)) as [c2 H2] end.
    rewrite H2 in Hs.
    match type of Hs with context [fetchAPI env ?ep (touch c2 ?e2 ?t)] =>
      destruct (fetchAPI_events env ep (touch c2 e2 t)) as [c3 H3] end.
    rewrite H3, !touch_touch in Hs.
    rewrite (emitted_touch (fun s => snd (lookupStaking env (Some value) s)) s s _ _
               Hs eq_refl).
    eexists _, _, _. unfold requested. rewrite !omap_app.
    split; [reflexivity |].
    split; [apply gateway_events_once | split].
    + exact (proj1 (gateway_events_once env _ (touch c1 _ s))).
    + exact (proj1 (gateway_events_once env _ (touch c2 _ s))).
Qed.

Lemma lookupStaking_validates_witness :
  lookupStaking (env_at 0 payload_100) (Some " AURA1qypq ") (boot default_config)
    = (Alert "Please enter a valid AURA address", boot default_config) /\
  exists r1 r2 r3,
    requested (emitted (fun s =>
      snd (lookupStaking (env_at 0 payload_100) (Some " aura1qypq ") s))
      (boot default_config)) = r1 ++ r2 ++ r3 /\
    at_most_once "http://localhost:8000/api/staking/delegations/aura1qypq" r1 /\
    at_most_once "http://localhost:8000/api/staking/unbonding/aura1qypq" r2 /\
    at_most_once "http://localhost:8000/api/staking/rewards/aura1qypq" r3.
Proof.
  destruct (lookupStaking_validates (env_at 0 payload_100) " AURA1qypq "
              (boot default_config)) as (_ & _ & H & _).
  split; [apply H; [discriminate | reflexivity] |].
  destruct (lookupStaking_validates (env_at 0 payload_100) " aura1qypq "
              (boot default_config)) as (_ & _ & _ & H').
  apply H'; [discriminate | reflexivity].
Defined.

End LookupFacts.

(** ** Invariants of the session *)

Module InvariantFacts.
Import Js Explorer Notions Lookup MoreNotions ViewFacts SessionFacts LookupFacts.
Local Open Scope list_scope.

Section CachePredicate.

Variable Q : gmap string CacheEntry -> Prop.

Hypothesis Q_put : forall c endpoint d t,
  startsWith endpoint "/api/" = true -> Q c -> Q (cache_put endpoint d t c).

Hypothesis Q_delete : forall c name,
  name = "blocks" \/ name = "transactions" -> Q c -> Q (delete name c).

Lemma fetchAPI_Q (env : Env) (endpoint : string) (s : Sys) :
  startsWith endpoint "/api/" = true ->
  Q (cache (self s)) -> Q (cache (self (snd (fetchAPI env endpoint s)))).
Proof.
  intros Hp HQ. unfold fetchAPI. destruct (cache_get _ _ _ _); [exact HQ |].
  destruct (reply _) as [reason | status statusText text body]; [exact HQ |].
  destruct (negb (ok status)); [exact HQ |].
  destruct body; [| exact HQ]. cbn. apply Q_put; assumption.
Qed.

Lemma finish_Q (l : loader) (env : Env) (endpoint : string) (s : Sys) :
  startsWith endpoint "/api/" = true ->
  Q (cache (self s)) -> Q (cache (self (finish l (fetchAPI env endpoint s)))).
Proof.
  intros Hp HQ. pose proof (fetchAPI_Q env endpoint s Hp HQ) as H.
  destruct (fetchAPI env endpoint s) as [[d|e] s']; exact H.
Qed.

Lemma transactions_endpoint_api (a : AuraExplorer) :
  startsWith (transactions_endpoint a) "/api/" = true.
Proof.
  unfold transactions_endpoint. cbn zeta.
  destruct (truthy (txType (filters a))), (truthy (txStatus (filters a))); reflexivity.
Qed.

Lemma proposals_endpoint_api (a : AuraExplorer) :
  startsWith (proposals_endpoint a) "/api/" = true.
Proof.
  unfold proposals_endpoint. cbn zeta.
  destruct (truthy (proposalStatus (filters a))); reflexivity.
Qed.

Lemma loadBlocks_Q (env : Env) (s : Sys) :
  Q (cache (self s)) -> Q (cache (self (loadBlocks env s))).
Proof. intros H. unfold loadBlocks. apply finish_Q; [reflexivity | exact H]. Qed.

Lemma loadTransactions_Q (env : Env) (s : Sys) :
  Q (cache (self s)) -> Q (cache (self (loadTransactions env s))).
Proof.
  intros H. unfold loadTransactions.
  apply finish_Q; [apply transactions_endpoint_api | exact H].
Qed.

Lemma loadValidators_Q (env : Env) (s : Sys) :
  Q (cache (self s)) -> Q (cache (self (loadValidators env s))).
Proof. intros H. unfold loadValidators. apply finish_Q; [reflexivity | exact H]. Qed.

Lemma loadProposals_Q (env : Env) (s : Sys) :
  Q (cache (self s)) -> Q (cache (self (loadProposals env s))).
Proof.
  intros H. unfold loadProposals.
  apply finish_Q; [apply proposals_endpoint_api | exact H].
Qed.

Lemma updateQuickStats_Q (env : Env) (s : Sys) :
  Q (cache (self s)) -> Q (cache (self (updateQuickStats env s))).
Proof. intros H. unfold updateQuickStats. apply finish_Q; [reflexivity | exact H]. Qed.

Lemma loadStakingPool_Q (env : Env) (s : Sys) :
  Q (cache (self s)) -> Q (cache (self (loadStakingPool env s))).
Proof.
  intros H. unfold loadStakingPool. cbn zeta.
  pose proof (fetchAPI_Q env "/api/staking/pool" (emit (Invoke LoadStakingPool) s)
                eq_refl H) as H1.
  destruct (fetchAPI env "/api/staking/pool" _) as [r1 s1]. cbn [snd] in H1.
  pose proof (fetchAPI_Q env "/api/staking/params" s1 eq_refl H1) as H2.
  destruct (fetchAPI env "/api/staking/params" s1) as [r2 s2]. cbn [snd] in H2.
  destruct r1, r2; exact H2.
Qed.

(** A loader seen from the cache: a [touch] whose cache satisfies [Q] when
    the one before did. *)
Lemma loader_Q (l : loader) (f : Sys -> Sys) :
  (forall s, Q (cache (self s)) -> Q (cache (self (f s)))) -> loads l f ->
  forall s, exists c evs, f s = touch c evs s /\ (Q (cache (self s)) -> Q c).
Proof.
  intros HQ Hl s. destruct (Hl s) as (c & evs & Hs & _).
  exists c, (Invoke l :: evs). split; [exact Hs |].
  intros H. pose proof (HQ s H) as H'. rewrite Hs in H'. exact H'.
Qed.

Ltac expose_with lemQ lemL env s :=
  let Heq := fresh "Heq" in
  destruct (loader_Q _ _ (lemQ env) (lemL env) s) as (? & ? & Heq & ?);
  rewrite Heq in *; clear Heq.

Ltac expose_loaders_Q :=
  repeat first
    [ match goal with
      | |- context [loadBlocks ?env ?s] =>
          expose_with loadBlocks_Q loadBlocks_loads env s
      | |- context [loadTransactions ?env ?s] =>
          expose_with loadTransactions_Q loadTransactions_loads env s
      | |- context [loadValidators ?env ?s] =>
          expose_with loadValidators_Q loadValidators_loads env s
      | |- context [loadProposals ?env ?s] =>
          expose_with loadProposals_Q loadProposals_loads env s
      | |- context [loadStakingPool ?env ?s] =>
          expose_with loadStakingPool_Q loadStakingPool_loads env s
      | |- context [updateQuickStats ?env ?s] =>
          expose_with updateQuickStats_Q updateQuickStats_loads env s
      | H : context [loadBlocks ?env ?s] |- _ =>
          expose_with loadBlocks_Q loadBlocks_loads env s
      | H : context [loadTransactions ?env ?s] |- _ =>
          expose_with loadTransactions_Q loadTransactions_loads env s
      | H : context [loadValidators ?env ?s] |- _ =>
          expose_with loadValidators_Q loadValidators_loads env s
      | H : context [loadProposals ?env ?s] |- _ =>
          expose_with loadProposals_Q loadProposals_loads env s
      | H : context [loadStakingPool ?env ?s] |- _ =>
          expose_with loadStakingPool_Q loadStakingPool_loads env s
      | H : context [updateQuickStats ?env ?s] |- _ =>
          expose_with updateQuickStats_Q updateQuickStats_loads env s
      end
    | match goal with
      | |- context [if ?b then _ else _] => destruct b eqn:?
      end ].

Lemma dispatch_Q (env : Env) (i : input) (s : Sys) :
  Q (cache (self s)) -> Q (cache (self (dispatch env i s))).
Proof.
  intros H.
  destruct i; cbn [dispatch];
    unfold init, loadInitialData, prevBlocksPage, nextBlocksPage, prevTxsPage,
      nextTxsPage, prevProposalsPage, nextProposalsPage, onTxTypeFilterChange,
      onTxStatusFilterChange, onProposalStatusFilterChange, onAutoRefreshChange,
      refreshTick, initWebSocket, onopen, onmessage, handleWSMessage,
      handleNewBlock, handleNewTransaction, onerror, onclose,
      startAutoRefresh, stopAutoRefresh;
    try destruct parsed as [message|];
    try destruct checked;
    cbn [autoRefresh self with_self set_autoRefresh refreshInterval];
    try destruct (refreshInterval (self s)) as [h|] eqn:Hh;
    expose_loaders_Q;
    cbn in *; eauto 12 using Q_delete.
Qed.

Lemma perform_Q (env : Env) (a : action) (s : Sys) :
  Q (cache (self s)) -> Q (cache (self (perform env a s))).
Proof.
  intros H. destruct a as [i | searchInput | stakingAddressInput]; cbn [perform].
  - apply dispatch_Q, H.
  - destruct (search_state env searchInput s) as [-> | (v & _ & _ & ->)]; [exact H |].
    apply fetchAPI_Q; [reflexivity | exact H].
  - unfold lookupStaking. destruct stakingAddressInput as [value|]; [| exact H].
    cbn zeta. destruct (String.eqb (trim value) ""); [exact H |].
    destruct (negb (startsWith (trim value) "aura")); [exact H |].
    pose proof (fetchAPI_Q env ("/api/staking/delegations/" +:+ trim value) s eq_refl H)
      as H1.
    destruct (fetchAPI env ("/api/staking/delegations/" +:+ trim value) s) as [r1 s1].
    cbn [snd] in H1.
    pose proof (fetchAPI_Q env ("/api/staking/unbonding/" +:+ trim value) s1 eq_refl H1)
      as H2.
    destruct (fetchAPI env ("/api/staking/unbonding/" +:+ trim value) s1) as [r2 s2].
    cbn [snd] in H2.
    pose proof (fetchAPI_Q env ("/api/staking/rewards/" +:+ trim value) s2 eq_refl H2)
      as H3.
    destruct (fetchAPI env ("/api/staking/rewards/" +:+ trim value) s2) as [r3 s3].
    cbn [snd] in H3.
    destruct r1, r2, r3; exact H3.
Qed.

Lemma session_Q (actions : list (Env * action)) (s : Sys) :
  Q (cache (self s)) -> Q (cache (self (session actions s))).
Proof.
  revert s. induction actions as [|[env a] rest IH]; intros s H; [exact H |].
  cbn [session]. apply IH, perform_Q, H.
Qed.

End CachePredicate.

Lemma api_keys_put (c : gmap string CacheEntry) (endpoint : string) (d : json) (t : Z) :
  startsWith endpoint "/api/" = true -> api_keys c -> api_keys (cache_put endpoint d t c).
Proof.
  intros Hp Hc key. unfold cache_put.
  destruct (decide (endpoint = key)) as [<-|Hne].
  - intros _. exact Hp.
  - rewrite lookup_insert_ne by exact Hne. apply Hc.
Qed.

Lemma api_keys_delete (c : gmap string CacheEntry) (name : string) :
  api_keys c -> api_keys (delete name c).
Proof.
  intros Hc key [e He]. apply Hc.
  destruct (decide (name = key)) as [<-|Hne].
  - rewrite lookup_delete_eq in He. discriminate.
  - rewrite lookup_delete_ne in He by exact Hne. eauto.
Qed.

Lemma api_keys_miss (c : gmap string CacheEntry) (name : string) :
  api_keys c -> startsWith name "/api/" = false -> delete name c = c.
Proof.
  intros Hc Hn. apply delete_id.
  destruct (c !! name) as [e|] eqn:E; [| reflexivity].
  assert (H : startsWith name "/api/" = true) by (apply Hc; eauto). congruence.
Qed.

(** X16: In every state the session reaches, all cache keys are endpoints under
    [/api/]; so the deletions of [handleNewBlock] and
    [handleNewTransaction], of the keys [blocks] and [transactions], never
    remove anything; and no action whatever removes an entry: the cache only
    grows, expired entries included. *)
Theorem cache_never_shrinks (config : Config) (actions : list (Env * action))
    (env : Env) (a : action) (key : string) :
  let s := session actions (boot config) in
  api_keys (cache (self s)) /\
  delete "blocks" (cache (self s)) = cache (self s) /\
  delete "transactions" (cache (self s)) = cache (self s) /\
  (is_Some (cache (self s) !! key) ->
   is_Some (cache (self (perform env a s)) !! key)).
Proof.
  intros s.
  assert (Hk : api_keys (cache (self s))).
  { subst s. apply (session_Q api_keys).
    - intros c ep d t Hp Hc. apply api_keys_put; assumption.
    - intros c name _ Hc. apply api_keys_delete, Hc.
    - intros k [e He]. cbn in He. rewrite lookup_empty in He. discriminate. }
  split; [exact Hk | split; [| split]].
  - apply api_keys_miss; [exact Hk | reflexivity].
  - apply api_keys_miss; [exact Hk | reflexivity].
  - intros Hin.
    apply (perform_Q (fun c => api_keys c /\ is_Some (c !! key))); [| | auto].
    + intros c ep d t Hp [Hc Hs]. split; [apply api_keys_put; assumption |].
      unfold cache_put. destruct (decide (ep = key)) as [->|Hne].
      * rewrite lookup_insert_eq. eauto.
      * rewrite lookup_insert_ne by exact Hne. exact Hs.
    + intros c name Hname [Hc Hs]. split; [apply api_keys_delete, Hc |].
      rewrite lookup_delete_ne; [exact Hs |].
      intros ->. pose proof (Hc _ Hs) as Hp.
      destruct Hname as [-> | ->]; discriminate Hp.
Qed.

Lemma cache_never_shrinks_witness :
  is_Some (cache (self (perform (env_down 60000)
                          (Core (SocketMessage (Some new_block_101)))
                          (session [(env_at 0 payload_100, Core Init)]
                                   (boot default_config))))
           !! first_blocks_page).
Proof.
  destruct (cache_never_shrinks default_config [(env_at 0 payload_100, Core Init)]
              (env_down 60000) (Core (SocketMessage (Some new_block_101)))
              first_blocks_page) as (_ & _ & _ & H).
  apply H. vm_compute. eauto.
Defined.

Lemma dispatch_settings (env : Env) (i : input) (s : Sys) :
  settings (dispatch env i s) = settings s.
Proof.
  destruct i; cbn [dispatch];
    unfold init, loadInitialData, prevBlocksPage, nextBlocksPage, prevTxsPage,
      nextTxsPage, prevProposalsPage, nextProposalsPage, onTxTypeFilterChange,
      onTxStatusFilterChange, onProposalStatusFilterChange, onAutoRefreshChange,
      refreshTick, initWebSocket, onopen, onmessage, handleWSMessage,
      handleNewBlock, handleNewTransaction, onerror, onclose,
      startAutoRefresh, stopAutoRefresh;
    try destruct parsed as [message|];
    try destruct checked;
    cbn [autoRefresh self with_self set_autoRefresh refreshInterval];
    try destruct (refreshInterval (self s)) as [h|] eqn:Hh;
    expose_loaders; reflexivity.
Qed.

(** The two lookups change nothing but the cache and the trace. *)
Lemma lookup_touch (env : Env) (a : action) (s : Sys) :
  (forall i, a <> Core i) ->
  exists c evs, perform env a s = touch c evs s /\ quiet evs.
Proof.
  intros Ha. destruct a as [i | searchInput | stakingAddressInput]; cbn [perform].
  - destruct (Ha i eq_refl).
  - destruct (search_state env searchInput s) as [-> | (v & _ & _ & ->)].
    + exists (cache (self s)), []. split; [apply touch_id | apply quiet_nil].
    + apply fetchAPI_touch.
  - unfold lookupStaking. destruct stakingAddressInput as [value|];
      [| exists (cache (self s)), []; split; [apply touch_id | apply quiet_nil]].
    cbn zeta.
    destruct (String.eqb (trim value) "");
      [exists (cache (self s)), []; split; [apply touch_id | apply quiet_nil] |].
    destruct (negb (startsWith (trim value) "aura"));
      [exists (cache (self s)), []; split; [apply touch_id | apply quiet_nil] |].
    destruct (fetchAPI_touch env ("/api/staking/delegations/" +:+ trim value) s)
      as (c1 & e1 & H1 & Q1).
    destruct (fetchAPI env ("/api/staking/delegations/" +:+ trim value) s) as [r1 s1].
    cbn [snd] in H1. subst s1.
    destruct (fetchAPI_touch env ("/api/staking/unbonding/" +:+ trim value) (touch c1 e1 s))
      as (c2 & e2 & H2 & Q2).
    destruct (fetchAPI env ("/api/staking/unbonding/" +:+ trim value) (touch c1 e1 s))
      as [r2 s2].
    cbn [snd] in H2. subst s2.
    destruct (fetchAPI_touch env ("/api/staking/rewards/" +:+ trim value)
                (touch c2 e2 (touch c1 e1 s))) as (c3 & e3 & H3 & Q3).
    destruct (fetchAPI env ("/api/staking/rewards/" +:+ trim value)
                (touch c2 e2 (touch c1 e1 s))) as [r3 s3].
    cbn [snd] in H3. subst s3.
    exists c3, (e1 ++ e2 ++ e3). split.
    + destruct r1, r2, r3; cbn [snd]; rewrite !touch_touch; reflexivity.
    + apply quiet_app; [exact Q1 | apply quiet_app; assumption].
Qed.

Lemma perform_inv (env : Env) (a : action) (s : Sys) :
  timer_inv s /\ pages_inv s ->
  timer_inv (perform env a s) /\ pages_inv (perform env a s) /\
  settings (perform env a s) = settings s.
Proof.
  intros H. destruct a as [i | searchInput | stakingAddressInput].
  - cbn [perform]. destruct (dispatch_inv env i s H) as [H1 H2].
    split; [exact H1 | split; [exact H2 | apply dispatch_settings]].
  - destruct (lookup_touch env (Search searchInput) s) as (c & evs & -> & _);
      [discriminate |].
    destruct H as [H1 H2]. repeat split; assumption.
  - destruct (lookup_touch env (LookupStaking stakingAddressInput) s) as (c & evs & -> & _);
      [discriminate |].
    destruct H as [H1 H2]. repeat split; assumption.
Qed.

Lemma session_inv (actions : list (Env * action)) (s : Sys) :
  timer_inv s /\ pages_inv s ->
  timer_inv (session actions s) /\ pages_inv (session actions s) /\
  settings (session actions s) = settings s.
Proof.
  revert s. induction actions as [|[env a] rest IH]; intros s H.
  - destruct H. auto.
  - cbn [session]. destruct (perform_inv env a s H) as (H1 & H2 & H3).
    destruct (IH (perform env a s) (conj H1 H2)) as (I1 & I2 & I3).
    split; [exact I1 | split; [exact I2 | congruence]].
Qed.

(** X17: In every state the session reaches, whatever the user clicks and the
    server or the socket delivers: every view is on a page from 1 on with
    the page size 20 of the constructor, so every offset requested is a
    non-negative multiple of 20; the cache timeout is still 5000 ms and the
    server addresses are those of the constructor; and never more than one
    interval timer is active. *)
Theorem session_invariants (config : Config) (actions : list (Env * action)) :
  let s := session actions (boot config) in
  (forall r, 1 <= page (view r s) /\ limit (view r s) = 20 /\
             0 <= (page (view r s) - 1) * limit (view r s)) /\
  cacheTimeout (self s) = 5000 /\
  apiUrl (self s) = apiUrl (constructor config) /\
  wsUrl (self s) = wsUrl (constructor config) /\
  (size (intervals s) <= 1)%nat.
Proof.
  intros s.
  destruct (session_inv actions (boot config) (boot_inv config)) as (Ht & Hp & Hs).
  fold s in Ht, Hp, Hs. clearbody s. unfold settings in Hs. cbn in Hs.
  injection Hs as Hb Hx Hr Hc Ha Hw.
  split; [| split; [exact Hc | split; [exact Ha | split; [exact Hw |]]]].
  - intros r. pose proof (Hp r) as H1.
    assert (Hl : limit (view r s) = 20) by (destruct r; assumption).
    split; [exact H1 | split; [exact Hl | rewrite Hl; lia]].
  - unfold timer_inv in Ht. rewrite Ht.
    destruct (refreshInterval (self s)); [rewrite size_singleton | rewrite size_empty]; lia.
Qed.

Lemma append_inj_l (s x y : string) : s +:+ x = s +:+ y -> x = y.
Proof. induction s as [|c s IH]; cbn; [auto | intros [= H]; auto]. Qed.

Lemma append_inj_r (x y t : string) : x +:+ t = y +:+ t -> x = y.
Proof.
  intros H. apply (f_equal list_ascii_of_string) in H.
  rewrite !chars_append in H. apply app_inv_tail in H.
  rewrite <- (string_of_list_ascii_of_string x), <- (string_of_list_ascii_of_string y), H.
  reflexivity.
Qed.

Lemma paged_endpoint_inj (base : string) (l p1 p2 : Z) :
  l <> 0 ->
  base +:+ pretty l +:+ "&offset=" +:+ pretty ((p1 - 1) * l)
    = base +:+ pretty l +:+ "&offset=" +:+ pretty ((p2 - 1) * l) ->
  p1 = p2.
Proof.
  intros Hl H. do 3 apply append_inj_l in H.
  apply (inj pretty) in H. nia.
Qed.

(** X18: Pages never share a cache entry: for the same page size (not 0) and the
    same filters, the endpoints of two views of a resource are equal only when
    the views are on the same page. *)
Theorem pages_have_own_cache_keys (a1 a2 : AuraExplorer) (r : resource) :
  filters a1 = filters a2 ->
  let endpoint := match r with
                  | Blocks => blocks_endpoint
                  | Transactions => transactions_endpoint
                  | Proposals => proposals_endpoint
                  end in
  let state := match r with
               | Blocks => fun a => blocks (pagination a)
               | Transactions => fun a => txs (pagination a)
               | Proposals => fun a => proposals (pagination a)
               end in
  limit (state a1) = limit (state a2) -> limit (state a1) <> 0 ->
  endpoint a1 = endpoint a2 ->
  page (state a1) = page (state a2).
Proof.
  intros Hf endpoint state Hl Hn He. subst endpoint state.
  destruct r; cbn beta iota in *.
  - unfold blocks_endpoint in He. cbn zeta in He. rewrite <- Hl in He.
    exact (paged_endpoint_inj _ _ _ _ Hn He).
  - unfold transactions_endpoint in He. cbn zeta in He. rewrite <- Hl, <- Hf in He.
    destruct (truthy (txType (filters a1))), (truthy (txStatus (filters a1))).
    + do 2 apply append_inj_r in He. exact (paged_endpoint_inj _ _ _ _ Hn He).
    + apply append_inj_r in He. exact (paged_endpoint_inj _ _ _ _ Hn He).
    + apply append_inj_r in He. exact (paged_endpoint_inj _ _ _ _ Hn He).
    + exact (paged_endpoint_inj _ _ _ _ Hn He).
  - unfold proposals_endpoint in He. cbn zeta in He. rewrite <- Hl, <- Hf in He.
    destruct (truthy (proposalStatus (filters a1))).
    + apply append_inj_r in He. exact (paged_endpoint_inj _ _ _ _ Hn He).
    + exact (paged_endpoint_inj _ _ _ _ Hn He).
Qed.

Lemma pages_have_own_cache_keys_witness :
  page (txs (pagination (constructor default_config)))
    = page (txs (pagination (set_cache (cache_put "/api/stats" JNull 0 ∅)
                               (constructor default_config)))).
Proof.
  apply (pages_have_own_cache_keys (constructor default_config)
           (set_cache (cache_put "/api/stats" JNull 0 ∅) (constructor default_config))
           Transactions).
  - reflexivity.
  - reflexivity.
  - discriminate.
  - reflexivity.
Defined.

End InvariantFacts.

(** ** Display helpers *)

Module DisplayFacts.
Import Js Display.

Lemma length_append (a b : string) :
  String.length (a +:+ b) = (String.length a + String.length b)%nat.
Proof. induction a as [|c a IH]; simpl; [reflexivity | f_equal; exact IH]. Qed.

Lemma append_assoc (a b c : string) : (a +:+ b) +:+ c = a +:+ (b +:+ c).
Proof.
  induction a as [|x a IH]; [reflexivity |].
  change (String x ((a +:+ b) +:+ c) = String x (a +:+ (b +:+ c))).
  rewrite IH. reflexivity.
Qed.

Lemma length_take (n : nat) (s : string) :
  String.length (take n s) = Nat.min n (String.length s).
Proof.
  revert s. induction n as [|n IH]; intros [|c s]; simpl; try reflexivity.
  f_equal. apply IH.
Qed.

Lemma length_slice (n : nat) (s : string) :
  String.length (slice n s) = (String.length s - n)%nat.
Proof.
  revert s. induction n as [|n IH]; intros [|c s]; simpl; try reflexivity.
  apply IH.
Qed.

Lemma slice_append (a b : string) : slice (String.length a) (a +:+ b) = b.
Proof. induction a as [|c a IH]; simpl; [destruct b; reflexivity | exact IH]. Qed.

Lemma startsWith_append (a b : string) : startsWith (a +:+ b) a = true.
Proof.
  induction a as [|c a IH]; simpl; [destruct b; reflexivity |].
  rewrite Ascii.eqb_refl. exact IH.
Qed.

Lemma length_last_chars (n : nat) (s : string) :
  (n <= String.length s)%nat -> String.length (last_chars n s) = n.
Proof. intros H. unfold last_chars. rewrite length_slice. lia. Qed.

(** What the two shorteners keep of [s]: its first [front] characters and
    its last 8, around three dots. *)
Lemma shortened (front : nat) (s : string) :
  (front + 8 <= String.length s)%nat ->
  let r := take front s +:+ "..." +:+ last_chars 8 s in
  String.length r = (front + 11)%nat /\
  startsWith r (take front s) = true /\
  last_chars 8 r = last_chars 8 s.
Proof.
  intros H r. subst r.
  assert (Hl : String.length (take front s +:+ "..." +:+ last_chars 8 s)
               = (front + 11)%nat).
  { rewrite !length_append, length_take, length_last_chars by lia. cbn. lia. }
  split; [exact Hl | split; [apply startsWith_append |]].
  unfold last_chars at 1. rewrite Hl.
  replace (front + 11 - 8)%nat with (String.length (take front s +:+ "..."))
    by (rewrite length_append, length_take; cbn; lia).
  rewrite <- append_assoc. apply slice_append.
Qed.

(** X19: [truncateHash] and [truncateAddr] never return the empty string (a
    missing or empty value is shown as [-]); a hash of up to 16 characters and
    an address of up to 20 are returned whole; a longer one is cut to its
    first 8 (address: 10) and last 8 characters around three dots, 19
    (address: 21) characters in all, which for a hash of 17 or 18 characters
    is more than it had. *)
Theorem truncateHash_truncateAddr (v : option string) :
  truncateHash v <> "" /\ truncateAddr v <> "" /\
  (String.length (truncateHash v) <= 19)%nat /\
  (String.length (truncateAddr v) <= 21)%nat /\
  (forall s, v = Some s -> s <> "" ->
     ((String.length s <= 16)%nat -> truncateHash v = s) /\
     ((String.length s <= 20)%nat -> truncateAddr v = s) /\
     ((16 < String.length s)%nat ->
        String.length (truncateHash v) = 19%nat /\
        startsWith (truncateHash v) (take 8 s) = true /\
        last_chars 8 (truncateHash v) = last_chars 8 s) /\
     ((20 < String.length s)%nat ->
        String.length (truncateAddr v) = 21%nat /\
        startsWith (truncateAddr v) (take 10 s) = true /\
        last_chars 8 (truncateAddr v) = last_chars 8 s)).
Proof.
  assert (Hne : forall s : string, String.length s <> 0%nat -> s <> "").
  { intros s H ->. apply H. reflexivity. }
  unfold truncateHash, truncateAddr. destruct v as [s|].
  2: { cbn. split; [discriminate | split; [discriminate |]].
       split; [lia | split; [lia | intros s [=]]]. }
  destruct (String.eqb_spec s "") as [->|Hs].
  { cbn. split; [discriminate | split; [discriminate |]].
    split; [lia | split; [lia |]]. intros s' [= <-] Hs'. contradiction. }
  assert (Hpos : (0 < String.length s)%nat) by (destruct s; [contradiction | cbn; lia]).
  destruct (Nat.ltb_spec 16 (String.length s)) as [H16|H16];
    destruct (Nat.ltb_spec 20 (String.length s)) as [H20|H20]; try lia.
  - destruct (shortened 8 s ltac:(lia)) as (L1 & P1 & S1).
    destruct (shortened 10 s ltac:(lia)) as (L2 & P2 & S2).
    cbn zeta in *.
    split; [apply Hne; lia | split; [apply Hne; lia |]].
    split; [lia | split; [lia |]].
    intros s' [= <-] _. repeat split; try assumption; lia.
  - destruct (shortened 8 s ltac:(lia)) as (L1 & P1 & S1). cbn zeta in *.
    split; [apply Hne; lia | split; [exact Hs |]].
    split; [lia | split; [lia |]].
    intros s' [= <-] _. repeat split; try assumption; try reflexivity; lia.
  - split; [exact Hs | split; [exact Hs |]].
    split; [lia | split; [lia |]].
    intros s' [= <-] _. repeat split; try reflexivity; lia.
Qed.

Lemma truncateHash_truncateAddr_witness :
  truncateHash (Some "0123456789abcdefg") = "01234567...9abcdefg" /\
  String.length (truncateHash (Some "0123456789abcdefg")) = 19%nat.
Proof.
  destruct (truncateHash_truncateAddr (Some "0123456789abcdefg")) as (_ & _ & _ & _ & H).
  destruct (H _ eq_refl) as (_ & _ & H16 & _); [discriminate |].
  destruct H16 as (Hl & _); [cbn; lia |].
  split; [reflexivity | exact Hl].
Defined.

(** X20: [truncateText]: a missing or empty text gives the empty string; any
    other text of at most [maxLength] characters is returned whole, and a
    longer one is cut to its first [maxLength] characters followed by three
    dots. The result has at most [maxLength + 3] characters (3 for a negative
    [maxLength]). *)
Theorem truncateText_bounds (text : option string) (maxLength : Z) :
  (Z.of_nat (String.length (truncateText text maxLength)) <= Z.max maxLength 0 + 3) /\
  truncateText None maxLength = "" /\
  truncateText (Some "") maxLength = "" /\
  (forall t, text = Some t -> t <> "" ->
     (Z.of_nat (String.length t) <= maxLength -> truncateText text maxLength = t) /\
     (maxLength < Z.of_nat (String.length t) ->
        truncateText text maxLength = take (Z.to_nat maxLength) t +:+ "..." /\
        Z.of_nat (String.length (truncateText text maxLength)) = Z.max maxLength 0 + 3 /\
        startsWith t (take (Z.to_nat maxLength) t) = true)).
Proof.
  assert (Hpre : forall n t, startsWith t (take n t) = true).
  { induction n as [|n IH]; intros [|c t]; simpl; try reflexivity.
    rewrite Ascii.eqb_refl. apply IH. }
  split; [| split; [reflexivity | split; [reflexivity |]]].
  - unfold truncateText. destruct text as [t|]; [| cbn; lia].
    destruct (String.eqb_spec t "") as [->|Ht]; [cbn; lia |].
    destruct (Z.ltb_spec maxLength (Z.of_nat (String.length t))) as [Hlt|Hge]; [| lia].
    rewrite length_append, length_take. cbn. lia.
  - intros t -> Ht. unfold truncateText.
    destruct (String.eqb_spec t "") as [E|_]; [contradiction |].
    destruct (Z.ltb_spec maxLength (Z.of_nat (String.length t))) as [Hlt|Hge].
    + split; [lia |]. intros _. split; [reflexivity | split; [| apply Hpre]].
      rewrite length_append, length_take. cbn. lia.
    + split; [reflexivity | lia].
Qed.

Lemma truncateText_bounds_witness :
  truncateText (Some "Increase the block size") 8 = "Increase...".
Proof.
  destruct (truncateText_bounds (Some "Increase the block size") 8) as (_ & _ & _ & H).
  destruct (H _ eq_refl) as (_ & H'); [discriminate |].
  destruct H' as (H' & _); [cbn; lia |].
  rewrite H'. reflexivity.
Defined.

End DisplayFacts.

(** ** The polling hook *)

Module PollingFacts.
Import Polling.

Lemma poll_step_inv (e : poll_event) (p p' : Poller) :
  poll_step e p = Some p' ->
  ((timeouts p + awaiting p <= 1)%nat /\
   (isCancelled p = false -> (timeouts p + awaiting p = 1)%nat)) ->
  (timeouts p' + awaiting p' <= 1)%nat /\
  (isCancelled p' = false -> (timeouts p' + awaiting p' = 1)%nat).
Proof.
  intros Hs [H1 H2]. destruct e as [| fulfilled |]; cbn in Hs.
  - destruct (timeouts p) as [|t] eqn:Ht; [discriminate |].
    injection Hs as <-. cbn. split; [lia | intros Hc; specialize (H2 Hc); lia].
  - destruct (awaiting p) as [|a] eqn:Ha; [discriminate |].
    injection Hs as <-. cbn. destruct (isCancelled p); cbn.
    + split; [lia | discriminate].
    + specialize (H2 eq_refl). split; [lia | intros _; lia].
  - injection Hs as <-. cbn. split; [exact H1 | discriminate].
Qed.

Lemma poll_run_inv (es : list poll_event) (p p' : Poller) :
  poll_run es p = Some p' ->
  ((timeouts p + awaiting p <= 1)%nat /\
   (isCancelled p = false -> (timeouts p + awaiting p = 1)%nat)) ->
  (timeouts p' + awaiting p' <= 1)%nat /\
  (isCancelled p' = false -> (timeouts p' + awaiting p' = 1)%nat).
Proof.
  revert p. induction es as [|e es IH]; intros p Hr Hi; cbn in Hr.
  - injection Hr as <-. exact Hi.
  - destruct (poll_step e p) as [p1|] eqn:Hs; [| discriminate].
    exact (IH p1 Hr (poll_step_inv e p p1 Hs Hi)).
Qed.

Lemma poll_run_cancelled (es : list poll_event) (p p' : Poller) :
  isCancelled p = true -> poll_run es p = Some p' ->
  isCancelled p' = true /\
  (calls p' + timeouts p' = calls p + timeouts p)%nat /\
  (timeouts p' <= timeouts p)%nat.
Proof.
  revert p. induction es as [|e es IH]; intros p Hc Hr; cbn in Hr.
  - injection Hr as <-. auto.
  - destruct (poll_step e p) as [p1|] eqn:Hs; [| discriminate].
    assert (H1 : isCancelled p1 = true /\
                 (calls p1 + timeouts p1 = calls p + timeouts p)%nat /\
                 (timeouts p1 <= timeouts p)%nat).
    { destruct e as [| fulfilled |]; cbn in Hs.
      - destruct (timeouts p) as [|t] eqn:Ht; [discriminate |].
        injection Hs as <-. cbn. split; [exact Hc | lia].
      - destruct (awaiting p) as [|a]; [discriminate |].
        injection Hs as <-. cbn. rewrite Hc. auto.
      - injection Hs as <-. cbn. auto. }
    destruct H1 as (Hc1 & Hn1 & Hm1). destruct (IH p1 Hc1 Hr) as (Hc' & Hn' & Hm').
    split; [exact Hc' | lia].
Qed.

(** X21: [usePolling] never runs its callback twice at a time: in every state
    one run of the effect reaches, at most one thing is outstanding, a
    pending timeout or a callback being awaited. Until the cleanup exactly
    one is, whether the callbacks have returned or thrown: an error never
    stops the polling. *)
Theorem polling_never_overlaps (es : list poll_event) (p : Poller) :
  poll_run es mount = Some p ->
  (timeouts p + awaiting p <= 1)%nat /\
  (isCancelled p = false -> (timeouts p + awaiting p = 1)%nat).
Proof.
  intros Hr. apply (poll_run_inv es mount p Hr). cbn. split; [lia | reflexivity].
Qed.

Lemma polling_never_overlaps_witness :
  exists p, poll_run [CallbackSettles false; TimeoutFires; CallbackSettles false] mount
            = Some p /\
    errors p = 2%nat /\ (timeouts p + awaiting p = 1)%nat.
Proof.
  eexists. split; [reflexivity |].
  split; [reflexivity |].
  apply (polling_never_overlaps
           [CallbackSettles false; TimeoutFires; CallbackSettles false]);
    reflexivity.
Defined.

(** X22: The cleanup of [usePolling] does not clear a pending timeout: after it
    the callback can still be called, but at most once more, and no timeout
    is scheduled any more. The bound is reached when the cleanup comes while
    a timeout is pending. *)
Theorem cleanup_allows_one_more_call (es1 es2 : list poll_event) (p p' : Poller) :
  poll_run es1 mount = Some p ->
  poll_run (Cleanup :: es2) p = Some p' ->
  isCancelled p' = true /\
  (calls p' <= calls p + 1)%nat /\
  (timeouts p' <= timeouts p)%nat /\
  (timeouts p = 0%nat -> calls p' = calls p).
Proof.
  intros H1 H2. destruct (poll_run_inv es1 mount p H1) as [Hb _]; [cbn; split; [lia | reflexivity] |].
  cbn in H2.
  match type of H2 with poll_run _ ?q = _ =>
    destruct (poll_run_cancelled es2 q p' eq_refl H2) as (Hc & Hn & Hm) end.
  cbn in Hn, Hm.
  split; [exact Hc | lia].
Qed.

Lemma cleanup_allows_one_more_call_witness :
  exists p p', poll_run [CallbackSettles true] mount = Some p /\
    poll_run [Cleanup; TimeoutFires; CallbackSettles true] p = Some p' /\
    calls p' = (calls p + 1)%nat /\ isCancelled p' = true /\
    (timeouts p' <= timeouts p)%nat.
Proof.
  eexists _, _. split; [reflexivity |]. split; [reflexivity |].
  split; [reflexivity |].
  destruct (cleanup_allows_one_more_call [CallbackSettles true]
              [TimeoutFires; CallbackSettles true] _ _ eq_refl eq_refl)
    as (Hc & _ & Hm & _).
  split; [exact Hc | exact Hm].
Defined.

End PollingFacts.
